(** * ngx-mat-select-search: the search field of a MatSelect panel

    A shallow embedding of [MatSelectSearchComponent]
    (mat-select-search.component): the viewport-fit scrolling, the
    restoration of selected values in multi-select mode, the value-accessor
    contract of the search field, the escape key and the "no entries found"
    indicator.

    Numbers.  The pixel measures of the DOM are JavaScript numbers, that is
    IEEE 754 binary64 values.  They are embedded as the primitive floats of
    Rocq: [+], [-], [*], [/] and the comparisons are the operations of the
    machine, a division by zero gives an infinity or NaN and the method goes
    on with it.  [Math.floor] and [Math.round] are computed from the binary
    representation of their argument.  Indices and counts are whole numbers
    far below 2^53, where the arithmetic of binary64 is exact: they are
    integers ([Z]) and enter the pixel arithmetic through [Js.of_Z].

    The DOM.  The panel element is a plain cell holding the [scrollTop] the
    component wrote; what a browser does with an assigned value afterwards
    (clamping to the scroll range) is not this component's code. *)

From Stdlib Require Import Floats.
From Stdlib Require Import ZArith List String Bool Lia.
From Stdlib Require Import DecimalString.
Import ListNotations.

Open Scope Z_scope.

(** ** JavaScript numbers and values *)

Module Js.

(** A whole number as a JavaScript number: the nearest binary64 value, the
    number itself below 2^53. *)
Definition of_Z (z : Z) : float :=
  SF2Prim (binary_normalize prec emax z 0 false).

(** [Math.floor]: the largest whole number at most [x]; an infinity, NaN, a
    zero and a number without fractional bits (exponent at least 0) are
    returned as they are. *)
Definition Math_floor (x : float) : float :=
  match Prim2SF x with
  | S754_finite s m e =>
    if 0 <=? e then x
    else of_Z (cond_Zopp s (Zpos m) / 2 ^ (- e))
  | _ => x
  end.

(** [Math.round]: the nearest whole number, a tie going to the larger one;
    a negative number that rounds to zero gives -0. *)
Definition Math_round (x : float) : float :=
  match Prim2SF x with
  | S754_finite s m e =>
    if 0 <=? e then x
    else
      let n := (2 * cond_Zopp s (Zpos m) + 2 ^ (- e)) / 2 ^ (- e + 1) in
      if (n =? 0) && s then neg_zero else of_Z n
  | _ => x
  end.

(** [x >= y]. *)
Definition ge (x y : float) : bool := (y <=? x)%float.

(** How a method ends: it returns or it throws. *)
Inductive completion (A : Type) : Type :=
| Normal (a : A)
| Throw (e : string).
Arguments Normal {A} a.
Arguments Throw {A} e.

Definition bind {A B : Type} (m : completion A) (k : A -> completion B)
  : completion B :=
  match m with
  | Normal a => k a
  | Throw e => Throw e
  end.

(** Reading a property of [undefined]. *)
Definition deref {A : Type} (what : string) (o : option A) : completion A :=
  match o with
  | Some a => Normal a
  | None => Throw ("TypeError: " ++ what ++ " is undefined")%string
  end.

(** The values a text control holds. *)
Inductive text : Type :=
| undefined
| null
| str (s : string).

Definition text_eq_dec (a b : text) : {a = b} + {a <> b}.
Proof. decide equality. apply string_dec. Defined.

(** [a === b] on such values. *)
Definition strict_eq (a b : text) : bool :=
  if text_eq_dec a b then true else false.

(** Truthiness: [undefined], [null] and the empty string are falsy. *)
Definition truthy (a : text) : bool :=
  match a with
  | str s => negb (String.eqb s "")
  | _ => false
  end.

End Js.

Import Js.

Declare Scope js_scope.
Notation "x <- m ;; k" := (Js.bind m (fun x => k))
  (at level 100, m at next level, right associativity) : js_scope.
Open Scope js_scope.

(** ** Whole numbers among the binary64 numbers *)

(** The whole numbers binary64 holds exactly, and those of the pixel
    arithmetic, whose quotients are rounded as the exact quotients are. *)
Definition small (z : Z) : Prop := - 2 ^ 53 < z < 2 ^ 53.

Definition pixels (z : Z) : Prop := - 2 ^ 50 < z < 2 ^ 50.

(** The mantissa of 53 digits and the exponent of a whole number. *)
Definition mant (p : positive) : positive :=
  Z.to_pos (Zpos p * 2 ^ (53 - Zpos (digits2_pos p))).

Definition expo (p : positive) : Z := Zpos (digits2_pos p) - 53.

(** The binary64 representation of a whole number below 2^53. *)
Definition SFofZ (z : Z) : spec_float :=
  match z with
  | Z0 => S754_zero false
  | Zpos p => S754_finite false (mant p) (expo p)
  | Zneg p => S754_finite true (mant p) (expo p)
  end.

(** A mantissa on which the rounding has lost nothing. *)
Definition exact_rec (m : Z) : shr_record := Build_shr_record m false false.

(** The max height of the select's overlay panel. *)
Definition SELECT_PANEL_MAX_HEIGHT : float := 256.


(** Key codes of @angular/cdk/keycodes ([Z_] is the code of the key Z). *)
Definition A : Z := 65.
Definition Z_ : Z := 90.
Definition ZERO : Z := 48.
Definition NINE : Z := 57.
Definition SPACE : Z := 32.
Definition HOME : Z := 36.
Definition END : Z := 35.
Definition ENTER : Z := 13.
Definition ESCAPE : Z := 27.

(** ** The component and its host *)

Section Component.

(** The values of the options, and the option groups of the select; the
    groups are read only by [_countGroupLabelsBeforeOption]. *)
Context {V : Type} {OptionGroups : Type}.

(** A rendered option: its value and the height of its host element
    ([_getHostElement().getBoundingClientRect().height]). *)
Record MatOption : Type := mkMatOption {
  value : V;
  height : float
}.

(** [_countGroupLabelsBeforeOption] of @angular/material/core is taken as
    given. *)
Variable _countGroupLabelsBeforeOption :
  Z -> list MatOption -> OptionGroups -> Z.

(** [matSelect.panel.nativeElement]. *)
Record Panel : Type := mkPanel {
  scrollTop : float
}.

(** [matSelect._keyManager]; [activeItemIndex] may be [null]. *)
Record KeyManager : Type := mkKeyManager {
  activeItemIndex : option Z
}.

(** A value of the select's control: an array of values in multi-select
    mode, a single value or nothing otherwise. *)
Inductive Selection : Type :=
| Nullish
| Single (v : V)
| Arr (vs : list V).

Definition isArray (s : Selection) : bool :=
  match s with Arr _ => true | _ => false end.

(** The host select.  [_onChange_calls] records the arguments of the calls
    of [matSelect._onChange], the oldest first. *)
Record MatSelect : Type := mkMatSelect {
  panel : option Panel;
  options : list MatOption;
  optionGroups : OptionGroups;
  _keyManager : option KeyManager;
  multiple : bool;
  ngControl : option Selection;
  compareWith : V -> V -> bool;
  _onChange_calls : list Selection
}.

(** The component.  [matOption] is the option the component sits in, if
    any (its class list); [onChangeFns] are the callbacks given to
    [registerOnChange] and [onChangeLog] their calls, the oldest first;
    [valueChangesSubscribed] tells whether [initMultipleHandling] subscribed
    to [ngControl.valueChanges]; [console] holds the [console.error] lines;
    [focusTimers] counts the pending [setTimeout(() => this._focus())]. *)
Record MatSelectSearchComponent : Type := mkComponent {
  matSelect : MatSelect;
  matOption : option (list string);
  noEntriesFoundLabel : Js.text;
  enableClearOnEscapePressed : bool;
  preventHomeEndKeyPropagation : bool;
  alwaysRestoreSelectedOptionsMulti : bool;
  _formControl_value : Js.text;
  _lastExternalInputValue : Js.text;
  previousSelectedValues : Selection;
  innerSelectSearch_offsetHeight : float;
  onChangeFns : list nat;
  onChangeLog : list (nat * Js.text);
  valueChangesSubscribed : bool;
  console : list string;
  focused : bool;
  focusTimers : nat
}.

(** *** Field updates *)

Definition set_panel (p : option Panel) (m : MatSelect) : MatSelect :=
  mkMatSelect p (options m) (optionGroups m) (_keyManager m) (multiple m)
              (ngControl m) (compareWith m) (_onChange_calls m).

Definition set_ngControl (v : option Selection) (m : MatSelect) : MatSelect :=
  mkMatSelect (panel m) (options m) (optionGroups m) (_keyManager m)
              (multiple m) v (compareWith m) (_onChange_calls m).

Definition set_onChange_calls (l : list Selection) (m : MatSelect)
  : MatSelect :=
  mkMatSelect (panel m) (options m) (optionGroups m) (_keyManager m)
              (multiple m) (ngControl m) (compareWith m) l.

Definition set_matSelect (m : MatSelect) (c : MatSelectSearchComponent)
  : MatSelectSearchComponent :=
  mkComponent m (matOption c) (noEntriesFoundLabel c)
    (enableClearOnEscapePressed c) (preventHomeEndKeyPropagation c)
    (alwaysRestoreSelectedOptionsMulti c) (_formControl_value c)
    (_lastExternalInputValue c) (previousSelectedValues c)
    (innerSelectSearch_offsetHeight c) (onChangeFns c) (onChangeLog c)
    (valueChangesSubscribed c) (console c) (focused c) (focusTimers c).

Definition set_formControl_value (v : Js.text) (c : MatSelectSearchComponent)
  : MatSelectSearchComponent :=
  mkComponent (matSelect c) (matOption c) (noEntriesFoundLabel c)
    (enableClearOnEscapePressed c) (preventHomeEndKeyPropagation c)
    (alwaysRestoreSelectedOptionsMulti c) v
    (_lastExternalInputValue c) (previousSelectedValues c)
    (innerSelectSearch_offsetHeight c) (onChangeFns c) (onChangeLog c)
    (valueChangesSubscribed c) (console c) (focused c) (focusTimers c).

Definition set_lastExternalInputValue (v : Js.text)
  (c : MatSelectSearchComponent) : MatSelectSearchComponent :=
  mkComponent (matSelect c) (matOption c) (noEntriesFoundLabel c)
    (enableClearOnEscapePressed c) (preventHomeEndKeyPropagation c)
    (alwaysRestoreSelectedOptionsMulti c) (_formControl_value c)
    v (previousSelectedValues c)
    (innerSelectSearch_offsetHeight c) (onChangeFns c) (onChangeLog c)
    (valueChangesSubscribed c) (console c) (focused c) (focusTimers c).

Definition set_previousSelectedValues (s : Selection)
  (c : MatSelectSearchComponent) : MatSelectSearchComponent :=
  mkComponent (matSelect c) (matOption c) (noEntriesFoundLabel c)
    (enableClearOnEscapePressed c) (preventHomeEndKeyPropagation c)
    (alwaysRestoreSelectedOptionsMulti c) (_formControl_value c)
    (_lastExternalInputValue c) s
    (innerSelectSearch_offsetHeight c) (onChangeFns c) (onChangeLog c)
    (valueChangesSubscribed c) (console c) (focused c) (focusTimers c).

Definition set_onChangeFns (l : list nat) (c : MatSelectSearchComponent)
  : MatSelectSearchComponent :=
  mkComponent (matSelect c) (matOption c) (noEntriesFoundLabel c)
    (enableClearOnEscapePressed c) (preventHomeEndKeyPropagation c)
    (alwaysRestoreSelectedOptionsMulti c) (_formControl_value c)
    (_lastExternalInputValue c) (previousSelectedValues c)
    (innerSelectSearch_offsetHeight c) l (onChangeLog c)
    (valueChangesSubscribed c) (console c) (focused c) (focusTimers c).

Definition set_onChangeLog (l : list (nat * Js.text))
  (c : MatSelectSearchComponent) : MatSelectSearchComponent :=
  mkComponent (matSelect c) (matOption c) (noEntriesFoundLabel c)
    (enableClearOnEscapePressed c) (preventHomeEndKeyPropagation c)
    (alwaysRestoreSelectedOptionsMulti c) (_formControl_value c)
    (_lastExternalInputValue c) (previousSelectedValues c)
    (innerSelectSearch_offsetHeight c) (onChangeFns c) l
    (valueChangesSubscribed c) (console c) (focused c) (focusTimers c).

Definition set_valueChangesSubscribed (b : bool)
  (c : MatSelectSearchComponent) : MatSelectSearchComponent :=
  mkComponent (matSelect c) (matOption c) (noEntriesFoundLabel c)
    (enableClearOnEscapePressed c) (preventHomeEndKeyPropagation c)
    (alwaysRestoreSelectedOptionsMulti c) (_formControl_value c)
    (_lastExternalInputValue c) (previousSelectedValues c)
    (innerSelectSearch_offsetHeight c) (onChangeFns c) (onChangeLog c)
    b (console c) (focused c) (focusTimers c).

Definition set_console (l : list string) (c : MatSelectSearchComponent)
  : MatSelectSearchComponent :=
  mkComponent (matSelect c) (matOption c) (noEntriesFoundLabel c)
    (enableClearOnEscapePressed c) (preventHomeEndKeyPropagation c)
    (alwaysRestoreSelectedOptionsMulti c) (_formControl_value c)
    (_lastExternalInputValue c) (previousSelectedValues c)
    (innerSelectSearch_offsetHeight c) (onChangeFns c) (onChangeLog c)
    (valueChangesSubscribed c) l (focused c) (focusTimers c).

Definition set_focused (b : bool) (c : MatSelectSearchComponent)
  : MatSelectSearchComponent :=
  mkComponent (matSelect c) (matOption c) (noEntriesFoundLabel c)
    (enableClearOnEscapePressed c) (preventHomeEndKeyPropagation c)
    (alwaysRestoreSelectedOptionsMulti c) (_formControl_value c)
    (_lastExternalInputValue c) (previousSelectedValues c)
    (innerSelectSearch_offsetHeight c) (onChangeFns c) (onChangeLog c)
    (valueChangesSubscribed c) (console c) b (focusTimers c).

Definition set_focusTimers (n : nat) (c : MatSelectSearchComponent)
  : MatSelectSearchComponent :=
  mkComponent (matSelect c) (matOption c) (noEntriesFoundLabel c)
    (enableClearOnEscapePressed c) (preventHomeEndKeyPropagation c)
    (alwaysRestoreSelectedOptionsMulti c) (_formControl_value c)
    (_lastExternalInputValue c) (previousSelectedValues c)
    (innerSelectSearch_offsetHeight c) (onChangeFns c) (onChangeLog c)
    (valueChangesSubscribed c) (console c) (focused c) n.

(** [this.matSelect.panel.nativeElement.scrollTop = v]. *)
Definition write_scrollTop (v : float) (c : MatSelectSearchComponent)
  : MatSelectSearchComponent :=
  set_matSelect (set_panel (Some (mkPanel v)) (matSelect c)) c.

(** *** Viewport-fit scrolling *)

Definition getMatOptionHeight (c : MatSelectSearchComponent) : float :=
  match options (matSelect c) with
  | first :: _ => height first
  | [] => 0%float
  end.

(** Determine the offset to length that can be caused by the optional
    matOption used as a search input. *)
Definition getOptionsLengthOffset (c : MatSelectSearchComponent) : Z :=
  match matOption c with
  | Some _ => 1
  | None => 0
  end.

(** Scrolls the currently active option into the view if it is not yet
    visible. *)
Definition adjustScrollTopToFitActiveOptionIntoView
  (c : MatSelectSearchComponent) : completion MatSelectSearchComponent :=
  match panel (matSelect c) with
  | Some p =>
    if (0 <? Z.of_nat (List.length (options (matSelect c))))
    then
      let matOptionHeight := getMatOptionHeight c in
      keyManager <- deref "this.matSelect._keyManager"
                      (_keyManager (matSelect c)) ;;
      let activeOptionIndex :=
        match activeItemIndex keyManager with
        | Some n => n
        | None => 0
        end in
      let labelCount :=
        _countGroupLabelsBeforeOption activeOptionIndex
          (options (matSelect c)) (optionGroups (matSelect c)) in
      let indexOfOptionToFitIntoView :=
        (match matOption c with Some _ => -1 | None => 0 end)
        + labelCount + activeOptionIndex in
      let currentScrollTop := scrollTop p in
      let searchInputHeight := innerSelectSearch_offsetHeight c in
      let amountOfVisibleOptions :=
        Math_floor ((SELECT_PANEL_MAX_HEIGHT - searchInputHeight)
                    / matOptionHeight)%float in
      let indexOfFirstVisibleOption :=
        (Math_round ((currentScrollTop + searchInputHeight)
                     / matOptionHeight) - 1)%float in
      if Js.ge indexOfFirstVisibleOption (Js.of_Z indexOfOptionToFitIntoView)
      then
        Normal (write_scrollTop
                  (Js.of_Z indexOfOptionToFitIntoView * matOptionHeight)%float
                  c)
      else if (indexOfFirstVisibleOption + amountOfVisibleOptions
               <=? Js.of_Z indexOfOptionToFitIntoView)%float
      then
        Normal (write_scrollTop
                  (Js.of_Z (indexOfOptionToFitIntoView + 1) * matOptionHeight
                   - (SELECT_PANEL_MAX_HEIGHT - searchInputHeight))%float c)
      else Normal c
    else Normal c
  | None => Normal c
  end.

(** *** The search field as a value accessor *)

(** Current search value. *)
Definition get_value (c : MatSelectSearchComponent) : Js.text :=
  _formControl_value c.

(** One emission of [_formControl.valueChanges] through the pipe a
    [registerOnChange(fn)] built:
    [filter(value => value !== this._lastExternalInputValue)],
    [tap(() => this._lastExternalInputValue = undefined)], [subscribe(fn)]. *)
Definition onChange_pipe (v : Js.text) (c : MatSelectSearchComponent)
  (fn : nat) : MatSelectSearchComponent :=
  if strict_eq v (_lastExternalInputValue c)
  then c
  else
    let c1 := set_lastExternalInputValue undefined c in
    set_onChangeLog (onChangeLog c1 ++ [(fn, v)]) c1.

(** [this._formControl.setValue(v)]: the control takes the value and
    [valueChanges] emits it to the subscribed pipes, in the order of their
    subscription.  (The subscriber of [ngOnInit] that puts a class on the
    host option when [_showNoEntriesFound$] emits is not followed here.) *)
Definition _formControl_setValue (v : Js.text) (c : MatSelectSearchComponent)
  : MatSelectSearchComponent :=
  let c1 := set_formControl_value v c in
  fold_left (onChange_pipe v) (onChangeFns c1) c1.

(** [changeDetectorRef.markForCheck()] changes nothing of the state kept
    here. *)
Definition writeValue (v : Js.text) (c : MatSelectSearchComponent)
  : MatSelectSearchComponent :=
  let c1 := set_lastExternalInputValue v c in
  _formControl_setValue v c1.

Definition registerOnChange (fn : nat) (c : MatSelectSearchComponent)
  : MatSelectSearchComponent :=
  set_onChangeFns (onChangeFns c ++ [fn]) c.

(** The user edits the input element: the template binds it to
    [_formControl], which takes the text of the element. *)
Definition userInput (s : string) (c : MatSelectSearchComponent)
  : MatSelectSearchComponent :=
  _formControl_setValue (str s) c.

(** Focuses the search input field (the scrollTop of the panel is saved and
    restored around the call).  [searchSelectInput], a static view child, is
    there. *)
Definition _focus (c : MatSelectSearchComponent) : MatSelectSearchComponent :=
  match panel (matSelect c) with
  | None => c
  | Some p =>
    let scrollTop0 := scrollTop p in
    write_scrollTop scrollTop0 (set_focused true c)
  end.

(** Resets the current search value. *)
Definition _reset (focus : bool) (c : MatSelectSearchComponent)
  : MatSelectSearchComponent :=
  let c1 := _formControl_setValue (str "") c in
  if focus then _focus c1 else c1.

(** *** Keys *)

Record KeyboardEvent : Type := mkKeyboardEvent {
  key : option string;
  keyCode : Z;
  propagationStopped : bool
}.

Definition stopPropagation (e : KeyboardEvent) : KeyboardEvent :=
  mkKeyboardEvent (key e) (keyCode e) true.

(** [event.key] as a condition. *)
Definition key_truthy (e : KeyboardEvent) : bool :=
  match key e with
  | Some s => negb (String.eqb s "")
  | None => false
  end.

(** [event.key && event.key.length === 1]. *)
Definition key_is_one_char (e : KeyboardEvent) : bool :=
  match key e with
  | Some s => (Nat.eqb (String.length s) 1)
  | None => false
  end.

(** The condition of the first clause of [_handleKeydown]. *)
Definition stops_alphanumeric (event : KeyboardEvent)
  (c : MatSelectSearchComponent) : bool :=
  key_is_one_char event
  || ((keyCode event >=? A) && (keyCode event <=? Z_))
  || ((keyCode event >=? ZERO) && (keyCode event <=? NINE))
  || (keyCode event =? SPACE)
  || (preventHomeEndKeyPropagation c
      && ((keyCode event =? HOME) || (keyCode event =? END))).

(** Handles the key down event with MatSelect. *)
Definition _handleKeydown (event : KeyboardEvent)
  (c : MatSelectSearchComponent) : KeyboardEvent * MatSelectSearchComponent :=
  let event1 :=
    if stops_alphanumeric event c then stopPropagation event else event in
  let c1 :=
    if multiple (matSelect c) && key_truthy event && (keyCode event =? ENTER)
    then set_focusTimers (S (focusTimers c)) c
    else c in
  if enableClearOnEscapePressed c1 && (keyCode event =? ESCAPE)
     && truthy (get_value c1)
  then (stopPropagation event1, _reset true c1)
  else (event1, c1).

(** *** The "no entries found" indicator *)

(** What [a && b && c] evaluates to here: a text or a boolean. *)
Inductive JsValue : Type :=
| VText (t : Js.text)
| VBool (b : bool).

Definition JsValue_truthy (v : JsValue) : bool :=
  match v with
  | VText t => truthy t
  | VBool b => b
  end.

(** [options ? options.length : 0]. *)
Definition optionsLength (opts : option (list MatOption)) : Z :=
  match opts with
  | Some l => Z.of_nat (List.length l)
  | None => 0
  end.

(** The function mapped over [combineLatest([valueChanges, optionsLength$])]:
    [this.noEntriesFoundLabel && value
     && optionsLength === this.getOptionsLengthOffset()]. *)
Definition _showNoEntriesFound (c : MatSelectSearchComponent)
  (value0 : Js.text) (optionsLength0 : Z) : JsValue :=
  if negb (truthy (noEntriesFoundLabel c)) then VText (noEntriesFoundLabel c)
  else if negb (truthy value0) then VText value0
  else VBool (optionsLength0 =? getOptionsLengthOffset c).

(** *** Multi-select restoration *)

(** [matSelect._onChange(v)]. *)
Definition _onChange (v : Selection) (c : MatSelectSearchComponent)
  : MatSelectSearchComponent :=
  set_matSelect
    (set_onChange_calls (_onChange_calls (matSelect c) ++ [v]) (matSelect c))
    c.

(** [l.some(v => compareWith(v, x))]. *)
Definition some_equal (cmp : V -> V -> bool) (l : list V) (x : V) : bool :=
  existsb (fun v => cmp v x) l.

(** One turn of [this.previousSelectedValues.forEach(previousValue => ...)]
    on the pair of [currentSelectedValues] and [restoreSelectedValues]. *)
Definition restore_step (cmp : V -> V -> bool) (optionValues : list V)
  (acc : list V * bool) (previousValue : V) : list V * bool :=
  let currentSelectedValues := fst acc in
  let previousValueDeselectedDuringFiltering :=
    negb (some_equal cmp currentSelectedValues previousValue)
    && negb (some_equal cmp optionValues previousValue) in
  if previousValueDeselectedDuringFiltering
  then (currentSelectedValues ++ [previousValue], true)
  else acc.

Definition restore_loop (cmp : V -> V -> bool) (optionValues : list V)
  (previous current : list V) : list V * bool :=
  fold_left (restore_step cmp optionValues) previous (current, false).

(** The subscriber of [ngControl.valueChanges].  An array that is emitted
    is the array the control holds: the pushes of the loop change the value
    of the control in place. *)
Definition selectionChanged (currentSelectedValues : Selection)
  (c : MatSelectSearchComponent) : MatSelectSearchComponent :=
  if negb (multiple (matSelect c))
  then set_previousSelectedValues currentSelectedValues c
  else if negb (alwaysRestoreSelectedOptionsMulti c)
  then set_previousSelectedValues currentSelectedValues c
  else
    let filteringInProgress := truthy (_formControl_value c) in
    match filteringInProgress, previousSelectedValues c with
    | true, Arr previous =>
      let current0 :=
        match currentSelectedValues with
        | Arr l => l
        | _ => []
        end in
      let optionValues := map value (options (matSelect c)) in
      let '(current1, restoreSelectedValues) :=
        restore_loop (compareWith (matSelect c)) optionValues
                     previous current0 in
      let c1 :=
        if isArray currentSelectedValues
        then set_matSelect
               (set_ngControl (Some (Arr current1)) (matSelect c)) c
        else c in
      let c2 := set_previousSelectedValues (Arr current1) c1 in
      if restoreSelectedValues then _onChange (Arr current1) c2 else c2
    | _, _ => set_previousSelectedValues currentSelectedValues c
    end.

Definition NO_CONTROL_MESSAGE : string :=
  "the mat-select containing ngx-mat-select-search must have a ngModel or formControl directive when multiple=true".

(** Initializes handling <mat-select [multiple]="true">. *)
Definition initMultipleHandling (c : MatSelectSearchComponent)
  : completion MatSelectSearchComponent :=
  match ngControl (matSelect c) with
  | None =>
    if multiple (matSelect c)
    then Normal (set_console (console c ++ [NO_CONTROL_MESSAGE]) c)
    else Normal c
  | Some v =>
    Normal (set_valueChangesSubscribed true
              (set_previousSelectedValues v c))
  end.

(** The control of the select takes a new value and [valueChanges] emits it.
    Without a control there is no such stream. *)
Definition ngControl_valueChanges (v : Selection)
  (c : MatSelectSearchComponent) : MatSelectSearchComponent :=
  match ngControl (matSelect c) with
  | None => c
  | Some _ =>
    let c1 := set_matSelect (set_ngControl (Some v) (matSelect c)) c in
    if valueChangesSubscribed c1 then selectionChanged v c1 else c1
  end.

End Component.

(** ** The words of the specification *)

Module Spec.
Section Spec.

Context {V : Type} {OptionGroups : Type}.
Variable countLabels : Z -> list (@MatOption V) -> OptionGroups -> Z.

(** The index of the active row: the active item index of the key manager
    plus the number of group labels before it, minus 1 when the component
    sits inside a mat-option. *)
Definition activeRowIndex (c : @MatSelectSearchComponent V OptionGroups)
  (km : KeyManager) : Z :=
  let active := match activeItemIndex km with Some n => n | None => 0 end in
  active
  + countLabels active (options (matSelect c)) (optionGroups (matSelect c))
  - (match matOption c with Some _ => 1 | None => 0 end).

(** floor((panelHeight - headerHeight) / rowHeight). *)
Definition visibleCount (headerHeight rowHeight : float) : float :=
  Math_floor ((SELECT_PANEL_MAX_HEIGHT - headerHeight) / rowHeight)%float.

(** round((scrollOffset + headerHeight) / rowHeight) - 1. *)
Definition firstVisible (scrollOffset headerHeight rowHeight : float)
  : float :=
  (Math_round ((scrollOffset + headerHeight) / rowHeight) - 1)%float.

(** The window of the testable property 1, at scroll offset [S]: rows
    floor((S + headerHeight)/R) - 1 to that plus the visible count. *)
Definition inWindow (S headerHeight rowHeight : float) (i : Z) : Prop :=
  let first := (Math_floor ((S + headerHeight) / rowHeight) - 1)%float in
  (first <=? Js.of_Z i)%float = true
  /\ (Js.of_Z i <=? first + visibleCount headerHeight rowHeight)%float
     = true.

(** The scroll offset of a component, when it has a panel. *)
Definition scrollOffset (c : @MatSelectSearchComponent V OptionGroups)
  : option float :=
  option_map scrollTop (panel (matSelect c)).

(** Whole-pixel measures: a row height [r], a header height [h], a scroll
    offset [s] and a row index [i] that are whole numbers of a size the
    pixel arithmetic keeps exact. *)
Definition wholePixels (r h s i : Z) : Prop :=
  0 < r < 2 ^ 16 /\ 0 <= h < 2 ^ 16
  /\ - 2 ^ 48 < s < 2 ^ 48 /\ - 2 ^ 31 < i < 2 ^ 31.

(** On whole pixels: the number of rows visible at once, the rounded index of
    the first visible row, and the scroll offset the method leaves. *)
Definition rowsVisible (h r : Z) : Z := (256 - h) / r.

Definition firstRow (s h r : Z) : Z := (2 * (s + h) + r) / (2 * r) - 1.

Definition fit (s h r i : Z) : Z :=
  if i <=? firstRow s h r then i * r
  else if firstRow s h r + rowsVisible h r <=? i
  then (i + 1) * r - (256 - h)
  else s.

(** The window of the testable property 1 on whole pixels. *)
Definition rowInWindow (S h r i : Z) : Prop :=
  (S + h) / r - 1 <= i <= (S + h) / r - 1 + rowsVisible h r.

(** A previously selected value that is neither in the current selection
    nor among the values of the rendered options. *)
Definition missing (cmp : V -> V -> bool) (current optionValues : list V)
  (previousValue : V) : bool :=
  negb (some_equal cmp current previousValue)
  && negb (some_equal cmp optionValues previousValue).

(** The values the loop of the subscriber pushes, as a recursion on the
    previous values: a value that is pushed counts as selected for the
    values after it. *)
Fixpoint restored (cmp : V -> V -> bool) (optionValues current : list V)
  (previous : list V) : list V :=
  match previous with
  | [] => []
  | p :: ps =>
    if missing cmp current optionValues p
    then p :: restored cmp optionValues (current ++ [p]) ps
    else restored cmp optionValues current ps
  end.

(** A list is empty. *)
Definition is_nil {A : Type} (l : list A) : bool :=
  match l with [] => true | _ => false end.

(** A selection as a list of values. *)
Definition values (s : @Selection V) : list V :=
  match s with Arr l => l | _ => [] end.


(** The user edits the field several times. *)
Definition userInputs (edits : list string)
  (c : @MatSelectSearchComponent V OptionGroups)
  : @MatSelectSearchComponent V OptionGroups :=
  fold_left (fun c s => userInput s c) edits c.

(** The calls one emitted text makes: one per registered callback. *)
Definition calls_of (c : @MatSelectSearchComponent V OptionGroups)
  (s : string) : list (nat * Js.text) :=
  map (fun fn => (fn, str s)) (onChangeFns c).

(** The control of the select emits several values. *)
Definition selectionChanges (vs : list (@Selection V))
  (c : @MatSelectSearchComponent V OptionGroups)
  : @MatSelectSearchComponent V OptionGroups :=
  fold_left (fun c v => ngControl_valueChanges v c) vs c.

End Spec.
End Spec.

(** ** Sample components *)

Module Samples.

Local Open Scope string_scope.

(** No option groups: no labels are counted. *)
Definition noLabels (_ : Z) (_ : list (@MatOption string)) (_ : unit) : Z := 0.

Definition rows (n : nat) (h : float) : list (@MatOption string) :=
  repeat (mkMatOption "row"%string h) n.

Definition select (scroll : float) (opts : list MatOption) (active : Z)
  : @MatSelect string unit :=
  mkMatSelect (Some (mkPanel scroll)) opts tt
    (Some (mkKeyManager (Some active))) false None String.eqb [].

(** A component outside a mat-option, with a header of the given height. *)
Definition component (m : @MatSelect string unit) (header : float)
  : @MatSelectSearchComponent string unit :=
  mkComponent m None (str "Keine Optionen gefunden") false false false
    (str "") undefined Nullish header [] [] false [] false 0%nat.

(** Panel height 256, header height 56, row height 40, scroll offset 0,
    active row 7. *)
Definition scenario : @MatSelectSearchComponent string unit :=
  component (select 0 (rows 12 40) 7) 56.

(** No option is rendered. *)
Definition emptyList : @MatSelectSearchComponent string unit :=
  component (select 30 [] 0) 56.



(** A multi-select with a control holding [current], the rendered options
    having the values [rendered]. *)
Definition multiSelect (current : list string) (rendered : list string)
  : @MatSelect string unit :=
  mkMatSelect (Some (mkPanel 0)) (map (fun v => mkMatOption v 40) rendered)
    tt (Some (mkKeyManager (Some 0))) true (Some (Arr current))
    String.eqb [].

(** The component of a multi-select, subscribed to the control, with the
    restoration flag [restore], the search text [search] and the previous
    selection [previous]. *)
Definition multiComponent (restore : bool) (search : string)
  (previous current rendered : list string)
  : @MatSelectSearchComponent string unit :=
  mkComponent (multiSelect current rendered) (Some [])
    (str "Keine Optionen gefunden") false false restore
    (str search) undefined (Arr previous) 56 [] [] true [] false 0%nat.

(** previousSelection = {a, b, c}, currentSelection = {a},
    renderedOptionValues = {a}, the filter text being "a". *)
Definition filtering : @MatSelectSearchComponent string unit :=
  multiComponent true "a" ["a"; "b"; "c"] ["a"] ["a"].

Definition flagDisabled : @MatSelectSearchComponent string unit :=
  multiComponent false "a" ["a"; "b"; "c"] ["a"] ["a"].

Definition filterEmpty : @MatSelectSearchComponent string unit :=
  multiComponent true "" ["a"; "b"; "c"] ["a"] ["a"].

(** The previous selection holds a value twice. *)
Definition twice : @MatSelectSearchComponent string unit :=
  multiComponent true "a" ["b"; "b"] ["a"] ["a"].

Definition sel_a : @Selection string := Arr ["a"].
Definition sel_ab : @Selection string := Arr ["a"; "b"].
Definition sel_abc : @Selection string := Arr ["a"; "b"; "c"].
Definition sel_none : @Selection string := Arr [].

(** A multi-select without a control. *)
Definition withoutControl : @MatSelectSearchComponent string unit :=
  mkComponent
    (mkMatSelect (Some (mkPanel 0)) (rows 3 40) tt
       (Some (mkKeyManager (Some 0))) true None String.eqb [])
    (Some []) (str "Keine Optionen gefunden") false false true
    (str "a") undefined Nullish 56 [] [] false [] false 0%nat.

(** A search field with one registered change callback. *)
Definition searchField (clearOnEscape : bool) (search : string)
  : @MatSelectSearchComponent string unit :=
  mkComponent (select 0 (rows 12 40) 0) (Some [])
    (str "Keine Optionen gefunden") clearOnEscape false false
    (str search) undefined Nullish 56 [0%nat] [] false [] false 0%nat.

Definition field : @MatSelectSearchComponent string unit :=
  searchField false "".

Definition a : string := "a".
Definition ab : string := "ab".

(** The search field holds "ab" and escape clears it. *)
Definition typed : @MatSelectSearchComponent string unit :=
  searchField true "ab".

(** The search field is empty. *)
Definition cleared : @MatSelectSearchComponent string unit :=
  searchField true "".

Definition Escape : string := "Escape".

(** The escape key. *)
Definition escapeKey : KeyboardEvent :=
  mkKeyboardEvent (Some "Escape"%string) ESCAPE false.

End Samples.

(** ** More of the component *)

(** Key codes of the arrow keys, of @angular/cdk/keycodes. *)
Definition UP_ARROW : Z := 38.
Definition DOWN_ARROW : Z := 40.

(** Inputs of the component that the definitions above do not read. *)
Record Inputs : Type := mkInputs {
  clearSearchInput : bool;
  disableInitialFocus : bool;
  indexAndLengthScreenReaderText : string
}.

(** An option as the key-up handler reads it. *)
Record OptionView : Type := mkOptionView {
  id : string;
  viewValue : string
}.

(** A number in a string concatenation. *)
Definition Number_toString (z : Z) : string :=
  NilZero.string_of_int (Z.to_int z).

(** [l.findIndex(f)], counting from [i]; -1 when no element satisfies [f]. *)
Fixpoint findIndex_from {A : Type} (f : A -> bool) (l : list A) (i : Z) : Z :=
  match l with
  | [] => -1
  | x :: xs => if f x then i else findIndex_from f xs (i + 1)
  end.

Definition findIndex {A : Type} (f : A -> bool) (l : list A) : Z :=
  findIndex_from f l 0.

(** The value of [matSelect.panelClass]: nothing (undefined or null), a
    string, an array of strings, or an object from class names to flags. *)
Inductive PanelClass : Type :=
| pc_nullish
| pc_string (s : string)
| pc_array (l : list string)
| pc_object (o : list (string * bool)).

Definition panelClass_name : string := "mat-select-search-panel".

(** [o[k] = true] on an object: a key that is there keeps its place. *)
Fixpoint assign_true (k : string) (o : list (string * bool))
  : list (string * bool) :=
  match o with
  | [] => [(k, true)]
  | (k', b) :: rest =>
    if String.eqb k' k then (k', true) :: rest
    else (k', b) :: assign_true k rest
  end.

(** The first block of [ngOnInit]: set custom panel class.  The empty string
    is falsy, as nothing is. *)
Definition ngOnInit_panelClass (panelClass : PanelClass) : PanelClass :=
  match panelClass with
  | pc_nullish => pc_string panelClass_name
  | pc_string s =>
    if String.eqb s "" then pc_string panelClass_name
    else pc_array [s; panelClass_name]
  | pc_array l => pc_array (l ++ [panelClass_name])
  | pc_object o => pc_object (assign_true panelClass_name o)
  end.

(** The entries a panel class value lists: the string if it is not empty, the
    elements of the array, the keys of the object whose flag is set. *)
Definition classNames (panelClass : PanelClass) : list string :=
  match panelClass with
  | pc_nullish => []
  | pc_string s => if String.eqb s "" then [] else [s]
  | pc_array l => l
  | pc_object o => map fst (filter snd o)
  end.

Section Handlers.

Context {V : Type} {OptionGroups : Type}.
Implicit Types c : @MatSelectSearchComponent V OptionGroups.

Definition isInsideMatOption c : bool :=
  match matOption c with
  | Some _ => true
  | None => false
  end.

(** The subscriber of [matSelect.openedChange]: when the select dropdown
    panel is opened or closed.  ([updateInputWidth] sets a style width, which
    is not part of the state.) *)
Definition openedChange_subscriber (inputs : Inputs) (opened : bool) c
  : @MatSelectSearchComponent V OptionGroups :=
  if opened
  then
    if negb (disableInitialFocus inputs) then _focus c else c
  else
    if clearSearchInput inputs then _reset false c else c.

(** Calculate the index of the current option, taking the offset to length
    into account. *)
Definition getAriaIndex c (optionIndex : Z) : Z :=
  if getOptionsLengthOffset c =? 0 then optionIndex + 1 else optionIndex.

(** Calculate the length of the options, taking the offset to length into
    account. *)
Definition getAriaLength c (_options : list OptionView) : Z :=
  Z.of_nat (List.length _options) - getOptionsLengthOffset c.

(** Handles the key up event with MatSelect.  [ariaActiveDescendantId] is
    what [matSelect._getAriaActiveDescendant()] returns, [_options] the
    options of the component, [announced] what [liveAnnouncer.announce] was
    given so far; the result is what it was given after the event. *)
Definition _handleKeyup (inputs : Inputs)
  (ariaActiveDescendantId : option string) (_options : list OptionView)
  (event : KeyboardEvent) c (announced : list string) : list string :=
  if (keyCode event =? UP_ARROW) || (keyCode event =? DOWN_ARROW)
  then
    let index :=
      findIndex
        (fun item =>
           match ariaActiveDescendantId with
           | Some a => String.eqb (id item) a
           | None => false
           end)
        _options in
    if negb (index =? -1)
    then
      match nth_error _options (Z.to_nat index) with
      | Some activeDescendant =>
        announced
        ++ [(viewValue activeDescendant ++ " "
             ++ Number_toString (getAriaIndex c index)
             ++ indexAndLengthScreenReaderText inputs
             ++ Number_toString (getAriaLength c _options))%string]
      | None => announced
      end
    else announced
  else announced.

End Handlers.

Module MoreSamples.

Local Open Scope string_scope.

Definition banks : list OptionView :=
  [mkOptionView "opt-0" "";
   mkOptionView "opt-1" "Bank A";
   mkOptionView "opt-2" "Bank B";
   mkOptionView "opt-3" "Bank C"].

Definition inputs : Inputs := mkInputs true false " of ".

Definition keepText : Inputs := mkInputs false false " of ".

Definition arrowDown : KeyboardEvent :=
  mkKeyboardEvent (Some "ArrowDown") DOWN_ARROW false.

Definition letterA : KeyboardEvent :=
  mkKeyboardEvent (Some "a") A false.

Definition homeKey : KeyboardEvent :=
  mkKeyboardEvent (Some "Home") HOME false.

Definition opt2 : string := "opt-2".

Definition customClass : PanelClass := pc_string "my-panel".

(** A multi-select whose comparison function is the equality of strings,
    filtering, with the previous selection {a, b}. *)
Definition reemitted : @MatSelectSearchComponent string unit :=
  Samples.multiComponent true "a" ["a"; "b"] ["a"; "b"] ["a"].

Definition sel_b : @Selection string := Arr ["b"].

End MoreSamples.


(** ** [Math.floor] and [Math.round] on samples *)

Example Math_floor_samples :
  Math_floor 5 = 5%float /\ Math_floor 2.5 = 2%float
  /\ Math_floor (-0.5) = (-1)%float /\ Math_floor 0.5 = 0%float
  /\ Math_floor neg_zero = neg_zero /\ Math_floor infinity = infinity
  /\ Math_floor 0x1.fffffffffffffp+51 = 4503599627370495%float
  /\ Math_floor (-0x1p-1074) = (-1)%float.
Proof. repeat split; vm_compute; reflexivity. Qed.

(** Ties go up, also below zero; 0.49999999999999994 rounds to 0; what
    rounds to zero from below is -0. *)
Example Math_round_samples :
  Math_round 2.5 = 3%float /\ Math_round (-2.5) = (-2)%float
  /\ Math_round 0x1.fffffffffffffp-2 = 0%float
  /\ Math_round 0.5 = 1%float /\ Math_round (-0.5) = neg_zero
  /\ Math_round (-0.25) = neg_zero /\ Math_round 0.25 = 0%float
  /\ Math_round (-1.5) = (-1)%float /\ Math_round 1.5 = 2%float
  /\ Math_round 0x1.fffffffffffffp+51 = 4503599627370496%float
  /\ Math_round neg_infinity = neg_infinity.
Proof. repeat split; vm_compute; reflexivity. Qed.

Example of_Z_samples :
  Js.of_Z 7 = 7%float /\ Js.of_Z (-3) = (-3)%float /\ Js.of_Z 0 = 0%float
  /\ Js.of_Z (2 ^ 53 + 1) = 9007199254740992%float.
Proof. repeat split; vm_compute; reflexivity. Qed.

(** ** Binary64 arithmetic on whole numbers

    Sums, differences, products and comparisons of whole numbers below 2^53
    are exact; the floor and the half-up rounding of a quotient of whole
    numbers below 2^50 are those of the exact quotient, although the quotient
    itself is rounded to 53 digits. *)

(** *** The number of binary digits *)
Lemma digits2_pos_bounds (p : positive) :
  2 ^ (Zpos (digits2_pos p) - 1) <= Zpos p < 2 ^ Zpos (digits2_pos p).
Proof.
  induction p as [ p IH | p IH | ]; simpl digits2_pos.
  - rewrite Pos2Z.inj_succ.
    replace (Z.succ (Zpos (digits2_pos p)) - 1) with (Z.succ (Zpos (digits2_pos p) - 1)) by lia.
    rewrite !Z.pow_succ_r by lia. lia.
  - rewrite Pos2Z.inj_succ.
    replace (Z.succ (Zpos (digits2_pos p)) - 1) with (Z.succ (Zpos (digits2_pos p) - 1)) by lia.
    rewrite !Z.pow_succ_r by lia. lia.
  - simpl. lia.
Qed.

Lemma digits2_pos_unique (p : positive) (d : Z) :
  2 ^ (d - 1) <= Zpos p < 2 ^ d -> Zpos (digits2_pos p) = d.
Proof.
  intros [H1 H2]. pose proof (digits2_pos_bounds p) as [B1 B2].
  assert (0 < d).
  { destruct (Z_lt_le_dec 0 d); [ assumption | ].
    assert (2 ^ d <= 2 ^ 0) by (apply Z.pow_le_mono_r; lia). simpl in *. lia. }
  destruct (Z.lt_trichotomy (Zpos (digits2_pos p)) d) as [ L | [ E | G ] ].
  - assert (2 ^ Zpos (digits2_pos p) <= 2 ^ (d - 1)) by (apply Z.pow_le_mono_r; lia). lia.
  - exact E.
  - assert (2 ^ d <= 2 ^ (Zpos (digits2_pos p) - 1)) by (apply Z.pow_le_mono_r; lia). lia.
Qed.

Lemma Zdigits2_mul_pow (p : positive) (k : Z) :
  0 <= k -> Zdigits2 (Zpos p * 2 ^ k) = Zpos (digits2_pos p) + k.
Proof.
  intro Hk. pose proof (digits2_pos_bounds p) as [B1 B2].
  assert (P : 0 < 2 ^ k) by (apply Z.pow_pos_nonneg; lia).
  destruct (Zpos p * 2 ^ k) as [ | q | q ] eqn:E; try lia.
  unfold Zdigits2. apply digits2_pos_unique. rewrite <- E.
  replace (Zpos (digits2_pos p) + k - 1) with ((Zpos (digits2_pos p) - 1) + k) by lia.
  rewrite (Z.pow_add_r 2 (Zpos (digits2_pos p) - 1) k) by lia.
  rewrite (Z.pow_add_r 2 (Zpos (digits2_pos p)) k) by lia. nia.
Qed.

(** *** Shifts *)
Lemma iter_pos_iter {A : Type} (f : A -> A) (p : positive) (x : A) :
  SpecFloat.iter_pos f p x = Pos.iter f x p.
Proof.
  revert x. induction p as [ p IH | p IH | ]; intro x; simpl.
  - rewrite !IH. rewrite <- !Pos.iter_swap. reflexivity.
  - rewrite !IH. reflexivity.
  - reflexivity.
Qed.

Lemma iter_xO (m k : positive) : Zpos (Pos.iter xO m k) = Zpos m * 2 ^ Zpos k.
Proof.
  induction k as [ | k IH ] using Pos.peano_ind.
  - simpl. lia.
  - rewrite Pos.iter_succ, Pos2Z.inj_succ, Z.pow_succ_r by lia.
    rewrite Pos2Z.inj_xO, IH. lia.
Qed.


Lemma shr_1_exact (m : Z) : 0 < m -> Z.even m = true ->
  shr_1 (exact_rec m) = exact_rec (m / 2).
Proof.
  intros Hm He. destruct m as [ | p | p ]; try lia.
  destruct p as [ p | p | ]; try discriminate.
  unfold exact_rec. simpl shr_1. f_equal.
  rewrite Pos2Z.inj_xO. rewrite Z.mul_comm, Z.div_mul by lia. reflexivity.
Qed.

Lemma iter_shr_1_exact (k : positive) (m : Z) :
  0 < m -> (2 ^ Zpos k | m) ->
  Pos.iter shr_1 (exact_rec m) k = exact_rec (m / 2 ^ Zpos k).
Proof.
  revert m. induction k as [ | k IH ] using Pos.peano_ind; intros m Hm [q Hq].
  - simpl Pos.iter. change (2 ^ 1) with 2 in *. apply shr_1_exact; [ lia | ].
    subst m. rewrite Z.even_mul. simpl. apply orb_true_r.
  - rewrite Pos.iter_succ.
    rewrite Pos2Z.inj_succ, Z.pow_succ_r in * by lia.
    rewrite IH; [ | lia | exists (q * 2); lia ].
    assert (P : 0 < 2 ^ Zpos k) by (apply Z.pow_pos_nonneg; lia).
    assert (E1 : m / 2 ^ Zpos k = q * 2).
    { subst m. replace (q * (2 * 2 ^ Zpos k)) with (q * 2 * 2 ^ Zpos k) by lia.
      apply Z.div_mul. lia. }
    rewrite E1. rewrite shr_1_exact.
    + f_equal. rewrite Z.div_mul by lia.
      subst m. symmetry. apply Z.div_mul. lia.
    + nia.
    + rewrite Z.even_mul. simpl. apply orb_true_r.
Qed.

(** Shifting out zero bits loses nothing. *)
Lemma shr_exact (m e n : Z) :
  0 < m -> 0 <= n -> (2 ^ n | m) ->
  shr (exact_rec m) e n = (exact_rec (m / 2 ^ n), e + n).
Proof.
  intros Hm Hn Hd. destruct n as [ | p | p ]; try lia.
  - simpl. rewrite Z.div_1_r, Z.add_0_r. reflexivity.
  - unfold shr. rewrite iter_pos_iter, iter_shr_1_exact by assumption. reflexivity.
Qed.

Lemma fexp_eq (x : Z) : fexp prec emax x = Z.max (x - 53) (-1074).
Proof. reflexivity. Qed.

(** Rounding a mantissa whose low bits are zero is exact. *)
Lemma binary_round_aux_exact (s : bool) (M e n : Z) :
  0 < M -> Zdigits2 M = 53 + n -> 0 <= n -> (2 ^ n | M) ->
  -1074 <= e + n <= 971 ->
  binary_round_aux prec emax s M e loc_Exact
  = S754_finite s (Z.to_pos (M / 2 ^ n)) (e + n).
Proof.
  intros HM Hd Hn [q Hq] He.
  assert (P : 0 < 2 ^ n) by (apply Z.pow_pos_nonneg; lia).
  assert (Hquo : M / 2 ^ n = q) by (subst M; apply Z.div_mul; lia).
  assert (Hqpos : 0 < q) by nia.
  destruct q as [ | q' | q' ]; try lia.
  assert (Hdq : Zpos (digits2_pos q') = 53).
  { pose proof (Zdigits2_mul_pow q' n Hn) as H. rewrite <- Hq, Hd in H. lia. }
  unfold binary_round_aux, shr_fexp.
  rewrite fexp_eq.
  change (shr_record_of_loc M loc_Exact) with (exact_rec M).
  replace (Z.max (Zdigits2 M + e - 53) (-1074) - e) with n by lia.
  rewrite shr_exact by (try lia; exists (Zpos q'); exact Hq).
  rewrite Hquo.
  change (loc_of_shr_record (exact_rec (Zpos q'))) with loc_Exact.
  cbn [shr_m exact_rec round_nearest_even].
  rewrite fexp_eq. cbn [Zdigits2]. rewrite Hdq.
  change (shr_record_of_loc (Zpos q') loc_Exact) with (exact_rec (Zpos q')).
  replace (Z.max (53 + (e + n) - 53) (-1074) - (e + n)) with 0 by lia.
  cbn [shr exact_rec shr_m].
  replace (e + n <=? emax - prec) with true
    by (symmetry; apply Z.leb_le; change (emax - prec) with 971; lia).
  reflexivity.
Qed.

(** [binary_round] of a whole number c scaled by 2^j, at exponent e. *)
Lemma binary_round_scaled (s : bool) (c : positive) (j e : Z) :
  0 <= j -> Zpos c < 2 ^ 53 ->
  -1074 <= e + j + Zpos (digits2_pos c) - 53 <= 971 ->
  forall m, Zpos m = Zpos c * 2 ^ j ->
  binary_round prec emax s m e
  = S754_finite s (Z.to_pos (Zpos c * 2 ^ (53 - Zpos (digits2_pos c))))
      (e + j + Zpos (digits2_pos c) - 53).
Proof.
  intros Hj Hc He m Hm.
  set (d := Zpos (digits2_pos c)) in *.
  assert (Hd : 1 <= d <= 53).
  { pose proof (digits2_pos_bounds c) as [B1 B2]. fold d in B1, B2. split; [ lia | ].
    destruct (Z_le_gt_dec d 53); [ assumption | ].
    assert (2 ^ 53 <= 2 ^ (d - 1)) by (apply Z.pow_le_mono_r; lia). lia. }
  assert (Hdm : Zpos (digits2_pos m) = d + j).
  { pose proof (Zdigits2_mul_pow c j Hj) as H. rewrite <- Hm in H. exact H. }
  unfold binary_round. rewrite fexp_eq, Hdm.
  replace (Z.max (d + j + e - 53) (-1074)) with (d + j + e - 53) by lia.
  unfold shl_align.
  destruct (d + j + e - 53 - e) as [ | k | k ] eqn:Ek.
  - (* no shift: j = 53 - d *)
    rewrite (binary_round_aux_exact s (Zpos m) e 0); try lia.
    + rewrite Z.div_1_r, Hm. f_equal; [ | lia ].
      f_equal. f_equal. f_equal. lia.
    + cbn [Zdigits2]. lia.
    + exists (Zpos m). simpl. lia.
  - (* the mantissa is longer than 53 digits: exact shift right *)
    rewrite (binary_round_aux_exact s (Zpos m) e (Zpos k)); try lia.
    + f_equal; [ | lia ]. f_equal.
      rewrite Hm. replace j with ((53 - d) + Zpos k) at 1 by lia.
      rewrite Z.pow_add_r by lia. rewrite Z.mul_assoc.
      apply Z.div_mul. apply Z.pow_nonzero; lia.
    + cbn [Zdigits2]. lia.
    + exists (Zpos c * 2 ^ (53 - d)). rewrite Hm.
      replace j with ((53 - d) + Zpos k) at 1 by lia.
      rewrite Z.pow_add_r by lia. lia.
  - (* shorter: shift left *)
    rewrite (binary_round_aux_exact s (Zpos (Pos.iter xO m k)) (d + j + e - 53) 0); try lia.
    + rewrite Z.div_1_r, iter_xO, Hm. f_equal; [ | lia ].
      f_equal. rewrite <- Z.mul_assoc, <- Z.pow_add_r by lia.
      f_equal. f_equal. lia.
    + cbn [Zdigits2]. rewrite <- (Pos2Z.inj_pow_pos) || idtac.
      pose proof (Zdigits2_mul_pow m (Zpos k)) as H.
      rewrite <- iter_xO in H. cbn [Zdigits2] in H. rewrite H by lia. lia.
    + exists (Zpos (Pos.iter xO m k)). simpl. lia.
Qed.

(** [binary_normalize] of a whole number scaled by a power of two. *)
Lemma binary_normalize_scaled (c j e : Z) :
  0 <= j -> - 2 ^ 53 < c < 2 ^ 53 -> e + j = 0 ->
  binary_normalize prec emax (c * 2 ^ j) e false = SFofZ c.
Proof.
  intros Hj Hc He.
  assert (P : 0 < 2 ^ j) by (apply Z.pow_pos_nonneg; lia).
  destruct c as [ | p | p ].
  - reflexivity.
  - pose proof (digits2_pos_bounds p) as [B1 B2].
    assert (Hd : Zpos (digits2_pos p) <= 53).
    { destruct (Z_le_gt_dec (Zpos (digits2_pos p)) 53); [ assumption | ].
      assert (2 ^ 53 <= 2 ^ (Zpos (digits2_pos p) - 1)) by (apply Z.pow_le_mono_r; lia). lia. }
    destruct (Zpos p * 2 ^ j) as [ | m | m ] eqn:E; try lia.
    unfold binary_normalize.
    rewrite (binary_round_scaled false p j e); try lia.
    unfold SFofZ, mant, expo. f_equal. lia.
  - pose proof (digits2_pos_bounds p) as [B1 B2].
    assert (Hd : Zpos (digits2_pos p) <= 53).
    { destruct (Z_le_gt_dec (Zpos (digits2_pos p)) 53); [ assumption | ].
      assert (2 ^ 53 <= 2 ^ (Zpos (digits2_pos p) - 1)) by (apply Z.pow_le_mono_r; lia). lia. }
    destruct (Zneg p * 2 ^ j) as [ | m | m ] eqn:E; try lia.
    unfold binary_normalize.
    rewrite (binary_round_scaled true p j e); try lia.
    unfold SFofZ, mant, expo. f_equal. lia.
Qed.

Lemma digits_le_53 (p : positive) : Zpos p < 2 ^ 53 -> 1 <= Zpos (digits2_pos p) <= 53.
Proof.
  intro H. pose proof (digits2_pos_bounds p) as [B1 B2]. split; [ lia | ].
  destruct (Z_le_gt_dec (Zpos (digits2_pos p)) 53); [ assumption | ].
  assert (2 ^ 53 <= 2 ^ (Zpos (digits2_pos p) - 1)) by (apply Z.pow_le_mono_r; lia). lia.
Qed.

(** *** The representation of a whole number *)

Lemma mant_eq (p : positive) : Zpos p < 2 ^ 53 ->
  Zpos (mant p) = Zpos p * 2 ^ (53 - Zpos (digits2_pos p)).
Proof.
  intro H. pose proof (digits_le_53 p H).
  unfold mant. rewrite Z2Pos.id; [ reflexivity | ].
  assert (0 < 2 ^ (53 - Zpos (digits2_pos p))) by (apply Z.pow_pos_nonneg; lia). nia.
Qed.

Lemma mant_digits (p : positive) : Zpos p < 2 ^ 53 ->
  Zpos (digits2_pos (mant p)) = 53.
Proof.
  intro H. pose proof (digits_le_53 p H) as Hd.
  pose proof (Zdigits2_mul_pow p (53 - Zpos (digits2_pos p)) ltac:(lia)) as Hm.
  rewrite <- mant_eq in Hm by lia. cbn [Zdigits2] in Hm. lia.
Qed.

Lemma finite_valid (s : bool) (p : positive) : Zpos p < 2 ^ 53 ->
  valid_binary (S754_finite s (mant p) (expo p)) = true.
Proof.
  intro H. pose proof (digits_le_53 p H) as Hd.
  unfold SpecFloat.valid_binary, bounded, canonical_mantissa.
  rewrite mant_digits by exact H. rewrite fexp_eq. unfold expo.
  apply andb_true_iff. split; [ apply Z.eqb_eq; lia | apply Z.leb_le ].
  change (emax - prec) with 971. lia.
Qed.

(** The representation is a valid binary64 number. *)
Lemma SFofZ_valid (z : Z) : small z -> valid_binary (SFofZ z) = true.
Proof.
  intros [H1 H2]. destruct z as [ | p | p ]; [ reflexivity | | ];
    apply finite_valid; lia.
Qed.

(** It is what the conversion of a whole number gives. *)
Lemma binary_normalize_int (z : Z) : small z ->
  binary_normalize prec emax z 0 false = SFofZ z.
Proof.
  intro H. rewrite <- (binary_normalize_scaled z 0 0); try lia; [ | exact H ].
  f_equal. simpl. lia.
Qed.

(** *** Sums and differences *)
Lemma shl_align_value (m : positive) (e e' : Z) :
  e' <= e -> Zpos (fst (shl_align m e e')) = Zpos m * 2 ^ (e - e').
Proof.
  intro H. unfold shl_align.
  destruct (e' - e) as [ | k | k ] eqn:E; try lia.
  - replace (e - e') with 0 by lia. simpl. lia.
  - simpl fst. rewrite iter_xO. f_equal. f_equal.
    pose proof (Pos2Z.opp_pos k). lia.
Qed.

Lemma SFofZ_align (p : positive) (s : bool) (ez : Z) :
  Zpos p < 2 ^ 53 -> ez <= expo p ->
  cond_Zopp s (Zpos (fst (shl_align (mant p) (expo p) ez)))
  = cond_Zopp s (Zpos p) * 2 ^ (- ez).
Proof.
  intros H He. pose proof (digits_le_53 p H).
  rewrite shl_align_value by exact He. rewrite mant_eq by exact H.
  unfold expo in *. rewrite <- Z.mul_assoc, <- Z.pow_add_r by lia.
  replace (53 - Zpos (digits2_pos p) + (Zpos (digits2_pos p) - 53 - ez)) with (- ez) by lia.
  destruct s; unfold cond_Zopp; [ rewrite Z.mul_opp_l | ]; reflexivity.
Qed.

Lemma SFofZ_pos (p : positive) : SFofZ (Zpos p) = S754_finite false (mant p) (expo p).
Proof. reflexivity. Qed.
Lemma SFofZ_neg (p : positive) : SFofZ (Zneg p) = S754_finite true (mant p) (expo p).
Proof. reflexivity. Qed.

Lemma SFofZ_finite (z : Z) : z <> 0 ->
  exists p, Zpos p = Z.abs z /\ SFofZ z = S754_finite (z <? 0) (mant p) (expo p)
            /\ cond_Zopp (z <? 0) (Zpos p) = z.
Proof.
  intro H. destruct z as [ | p | p ]; [ congruence | | ]; exists p; repeat split.
Qed.

(** Sums and differences of whole numbers are exact. *)
Lemma SFadd_int (a b : Z) : small a -> small b -> small (a + b) ->
  SFadd prec emax (SFofZ a) (SFofZ b) = SFofZ (a + b).
Proof.
  intros Ha Hb Hab.
  destruct (Z.eq_dec a 0) as [ -> | Na ].
  { simpl. destruct b; reflexivity. }
  destruct (Z.eq_dec b 0) as [ -> | Nb ].
  { rewrite Z.add_0_r. destruct a; reflexivity. }
  destruct (SFofZ_finite a Na) as (pa & Pa & Ea & Ca).
  destruct (SFofZ_finite b Nb) as (pb & Pb & Eb & Cb).
  assert (Hpa : Zpos pa < 2 ^ 53) by (unfold small in *; lia).
  assert (Hpb : Zpos pb < 2 ^ 53) by (unfold small in *; lia).
  rewrite Ea, Eb. unfold SFadd.
  set (ez := Z.min (expo pa) (expo pb)).
  rewrite !SFofZ_align by (try assumption; unfold ez; lia).
  rewrite Ca, Cb, <- Z.mul_add_distr_r.
  pose proof (digits_le_53 pa Hpa). pose proof (digits_le_53 pb Hpb).
  apply binary_normalize_scaled; [ unfold ez, expo; lia | exact Hab | lia ].
Qed.

Lemma SFsub_int (a b : Z) : small a -> small b -> small (a - b) ->
  SFsub prec emax (SFofZ a) (SFofZ b) = SFofZ (a - b).
Proof.
  intros Ha Hb Hab.
  destruct (Z.eq_dec b 0) as [ -> | Nb ].
  { rewrite Z.sub_0_r. destruct a; reflexivity. }
  destruct (Z.eq_dec a 0) as [ -> | Na ].
  { simpl. destruct b; reflexivity. }
  destruct (SFofZ_finite a Na) as (pa & Pa & Ea & Ca).
  destruct (SFofZ_finite b Nb) as (pb & Pb & Eb & Cb).
  assert (Hpa : Zpos pa < 2 ^ 53) by (unfold small in *; lia).
  assert (Hpb : Zpos pb < 2 ^ 53) by (unfold small in *; lia).
  rewrite Ea, Eb. unfold SFsub.
  set (ez := Z.min (expo pa) (expo pb)).
  rewrite !SFofZ_align by (try assumption; unfold ez; lia).
  rewrite Ca, Cb, <- Z.mul_sub_distr_r.
  pose proof (digits_le_53 pa Hpa). pose proof (digits_le_53 pb Hpb).
  apply binary_normalize_scaled; [ unfold ez, expo; lia | exact Hab | lia ].
Qed.

(** *** Products *)
Lemma digits_mul_lower (pa pb pc : positive) :
  Zpos pc = Zpos pa * Zpos pb ->
  Zpos (digits2_pos pa) + Zpos (digits2_pos pb) - 1 <= Zpos (digits2_pos pc).
Proof.
  intro H.
  pose proof (digits2_pos_bounds pa) as [A1 A2].
  pose proof (digits2_pos_bounds pb) as [B1 B2].
  pose proof (digits2_pos_bounds pc) as [C1 C2].
  set (da := Zpos (digits2_pos pa)) in *. set (db := Zpos (digits2_pos pb)) in *.
  set (dc := Zpos (digits2_pos pc)) in *.
  destruct (Z_le_gt_dec (da + db - 1) dc); [ assumption | exfalso ].
  assert (2 ^ dc <= 2 ^ (da + db - 2)) by (apply Z.pow_le_mono_r; lia).
  replace (da + db - 2) with ((da - 1) + (db - 1)) in * by lia.
  rewrite Z.pow_add_r in * by lia.
  assert (0 < 2 ^ (da - 1)) by (apply Z.pow_pos_nonneg; lia).
  assert (0 < 2 ^ (db - 1)) by (apply Z.pow_pos_nonneg; lia).
  nia.
Qed.

(** A product with a positive whole number is exact. *)
Lemma SFmul_int (a b : Z) : small a -> small b -> small (a * b) -> 0 < b ->
  SFmul prec emax (SFofZ a) (SFofZ b) = SFofZ (a * b).
Proof.
  intros Ha Hb Hab Pb.
  destruct (Z.eq_dec a 0) as [ -> | Na ].
  { destruct b; try lia. reflexivity. }
  assert (Nb : b <> 0) by lia.
  assert (Nab : a * b <> 0) by nia.
  destruct (SFofZ_finite a Na) as (pa & Pa & Ea & Ca).
  destruct (SFofZ_finite b Nb) as (pb & Pb' & Eb & Cb).
  destruct (SFofZ_finite (a * b) Nab) as (pc & Pc & Ec & Cc).
  assert (Hpa : Zpos pa < 2 ^ 53) by (unfold small in *; lia).
  assert (Hpb : Zpos pb < 2 ^ 53) by (unfold small in *; lia).
  assert (Hpc : Zpos pc < 2 ^ 53) by (unfold small in *; lia).
  assert (Hprod : Zpos pc = Zpos pa * Zpos pb) by (rewrite Pa, Pb', Pc; apply Z.abs_mul).
  rewrite Ea, Eb, Ec. unfold SFmul.
  replace (b <? 0) with false by (symmetry; apply Z.ltb_ge; lia).
  rewrite xorb_false_r.
  replace (a * b <? 0) with (a <? 0)
    by (destruct (Z.ltb_spec a 0), (Z.ltb_spec (a * b) 0); try reflexivity; nia).
  pose proof (digits_le_53 pa Hpa) as Da. pose proof (digits_le_53 pb Hpb) as Db.
  pose proof (digits_le_53 pc Hpc) as Dc.
  pose proof (digits_mul_lower pa pb pc Hprod) as Dl.
  set (da := Zpos (digits2_pos pa)) in *. set (db := Zpos (digits2_pos pb)) in *.
  set (dc := Zpos (digits2_pos pc)) in *.
  assert (HM : Zpos (mant pa * mant pb) = Zpos pc * 2 ^ (106 - da - db)).
  { rewrite Pos2Z.inj_mul, !mant_eq by assumption. fold da db.
    replace (106 - da - db) with ((53 - da) + (53 - db)) by lia.
    rewrite Z.pow_add_r by lia. rewrite Hprod. ring. }
  rewrite (binary_round_aux_exact _ _ _ (dc + 53 - da - db)); try lia.
  - rewrite HM. unfold expo. fold da db dc. f_equal; [ | lia ].
    unfold mant. fold dc. f_equal.
    replace (106 - da - db) with ((53 - dc) + (dc + 53 - da - db)) by lia.
    rewrite Z.pow_add_r by lia. rewrite Z.mul_assoc.
    apply Z.div_mul. apply Z.pow_nonzero; lia.
  - rewrite HM. rewrite Zdigits2_mul_pow by lia. fold dc. lia.
  - rewrite HM. exists (Zpos pc * 2 ^ (53 - dc)).
    replace (106 - da - db) with ((53 - dc) + (dc + 53 - da - db)) by lia.
    rewrite Z.pow_add_r by lia. ring.
  - unfold expo. fold da db. lia.
Qed.

(** *** Comparison *)
Lemma digits_lt_lt (pa pb : positive) :
  Zpos (digits2_pos pa) < Zpos (digits2_pos pb) -> Zpos pa < Zpos pb.
Proof.
  intro H.
  pose proof (digits2_pos_bounds pa) as [A1 A2].
  pose proof (digits2_pos_bounds pb) as [B1 B2].
  assert (2 ^ Zpos (digits2_pos pa) <= 2 ^ (Zpos (digits2_pos pb) - 1))
    by (apply Z.pow_le_mono_r; lia).
  lia.
Qed.

Lemma compare_mant (pa pb : positive) :
  Zpos pa < 2 ^ 53 -> Zpos pb < 2 ^ 53 ->
  (match expo pa ?= expo pb with
   | Lt => Lt
   | Gt => Gt
   | Eq => Pos.compare_cont Eq (mant pa) (mant pb)
   end) = (Zpos pa ?= Zpos pb).
Proof.
  intros Ha Hb. unfold expo.
  pose proof (digits_le_53 pa Ha). pose proof (digits_le_53 pb Hb).
  destruct (Z.compare_spec (Zpos (digits2_pos pa) - 53) (Zpos (digits2_pos pb) - 53)) as [ E | L | G ].
  - change (Pos.compare_cont Eq (mant pa) (mant pb)) with (Zpos (mant pa) ?= Zpos (mant pb)).
    rewrite !mant_eq by assumption.
    replace (Zpos (digits2_pos pb)) with (Zpos (digits2_pos pa)) by lia.
    assert (0 < 2 ^ (53 - Zpos (digits2_pos pa))) by (apply Z.pow_pos_nonneg; lia).
    destruct (Z.compare_spec (Zpos pa) (Zpos pb)) as [ E' | L' | G' ].
    + rewrite E'. apply Z.compare_refl.
    + apply Z.compare_lt_iff. nia.
    + apply Z.compare_gt_iff. nia.
  - symmetry. apply Z.compare_lt_iff. apply digits_lt_lt. lia.
  - symmetry. apply Z.compare_gt_iff. apply digits_lt_lt. lia.
Qed.

(** Whole numbers compare as integers. *)
Lemma SFcompare_int (a b : Z) : small a -> small b ->
  SFcompare (SFofZ a) (SFofZ b) = Some (a ?= b).
Proof.
  intros Ha Hb.
  destruct a as [ | pa | pa ], b as [ | pb | pb ]; try reflexivity.
  - rewrite !SFofZ_pos. cbn [SFcompare].
    rewrite compare_mant by (unfold small in *; lia). reflexivity.
  - rewrite !SFofZ_neg. cbn [SFcompare]. f_equal.
    pose proof (compare_mant pa pb ltac:(unfold small in *; lia) ltac:(unfold small in *; lia)) as H.
    change (Zneg pa ?= Zneg pb) with (CompOpp (Zpos pa ?= Zpos pb)).
    rewrite <- H.
    destruct (expo pa ?= expo pb); reflexivity.
Qed.

(** *** Rounding a quotient to 53 digits *)
Lemma round_nearest_even_bracket (m : Z) (l : location) :
  m <= round_nearest_even m l <= m + 1
  /\ (l = loc_Exact -> round_nearest_even m l = m).
Proof.
  split.
  - destruct l as [ | [ | | ] ]; simpl; try lia. destruct (Z.even m); lia.
  - intros ->. reflexivity.
Qed.

Lemma record_of_loc (m : Z) (l : location) :
  shr_m (shr_record_of_loc m l) = m
  /\ loc_of_shr_record (shr_record_of_loc m l) = l.
Proof. destruct l as [ | [ | | ] ]; split; reflexivity. Qed.

Lemma shr_1_record (p : positive) (l : location) :
  1 < Zpos p ->
  shr_m (shr_1 (shr_record_of_loc (Zpos p) l)) = Zpos p / 2
  /\ (l = loc_Exact -> Zpos p mod 2 = 0 ->
      loc_of_shr_record (shr_1 (shr_record_of_loc (Zpos p) l)) = loc_Exact).
Proof.
  intro H. destruct p as [ p | p | ]; try lia.
  - split.
    + destruct l as [ | [ | | ] ]; simpl shr_m;
        rewrite Pos2Z.inj_xI;
        apply (Z.div_unique _ _ _ 1); lia.
    + intros _ Hm. rewrite Pos2Z.inj_xI in Hm.
      rewrite Z.add_comm, Z.mul_comm, Z.mod_add in Hm by lia. discriminate.
  - split.
    + destruct l as [ | [ | | ] ]; simpl shr_m;
        rewrite Pos2Z.inj_xO;
        apply (Z.div_unique _ _ _ 0); lia.
    + intros -> _. reflexivity.
Qed.

Lemma Zdigits2_bounds (q d : Z) : 0 < q -> 2 ^ (d - 1) <= q < 2 ^ d ->
  Zdigits2 q = d.
Proof.
  intros Hq H. destruct q as [ | p | p ]; try lia.
  apply digits2_pos_unique. exact H.
Qed.

(** Rounding a mantissa of 53 or 54 digits: the scaled floor, or one more,
    and the floor itself when nothing is lost. *)
Lemma binary_round_aux_bracket (s : bool) (q e : Z) (l : location) :
  2 ^ 52 <= q < 2 ^ 54 -> -1074 <= e -> e + 2 <= 971 ->
  exists (M : positive) (n : Z),
    binary_round_aux prec emax s q e l = S754_finite s M (e + n)
    /\ 0 <= n <= 2
    /\ q / 2 ^ n <= Zpos M <= q / 2 ^ n + 1
    /\ (l = loc_Exact -> q mod 2 ^ n = 0 -> Zpos M = q / 2 ^ n).
Proof.
  intros Hq He1 He2.
  (* first stage *)
  assert (Stage1 : exists (m1 n1 : Z),
    (let '(mrs', e') := shr_fexp prec emax q e l in
     (round_nearest_even (shr_m mrs') (loc_of_shr_record mrs'), e'))
    = (m1, e + n1)
    /\ 0 <= n1 <= 1
    /\ q / 2 ^ n1 <= m1 <= q / 2 ^ n1 + 1
    /\ (l = loc_Exact -> q mod 2 ^ n1 = 0 -> m1 = q / 2 ^ n1)
    /\ 2 ^ 52 <= q / 2 ^ n1 < 2 ^ 53).
  { destruct (Z_lt_le_dec q (2 ^ 53)) as [ Lq | Gq ].
    - exists (round_nearest_even q l), 0.
      unfold shr_fexp. rewrite fexp_eq.
      rewrite (Zdigits2_bounds q 53) by (simpl; lia).
      replace (Z.max (53 + e - 53) (-1074) - e) with 0 by lia.
      cbn [shr]. destruct (record_of_loc q l) as [-> ->].
      rewrite Z.add_0_r, Z.div_1_r.
      split; [ reflexivity | ]. split; [ lia | ].
      destruct (round_nearest_even_bracket q l) as [B1 B2].
      split; [ exact B1 | ]. split; [ intros E _; apply B2, E | simpl; lia ].
    - destruct q as [ | p | p ]; try lia.
      destruct (shr_1_record p l ltac:(lia)) as [Hm Hl].
      exists (round_nearest_even (Zpos p / 2)
                (loc_of_shr_record (shr_1 (shr_record_of_loc (Zpos p) l)))), 1.
      unfold shr_fexp. rewrite fexp_eq.
      rewrite (Zdigits2_bounds (Zpos p) 54) by (simpl; lia).
      replace (Z.max (54 + e - 53) (-1074) - e) with 1 by lia.
      cbn [shr SpecFloat.iter_pos]. rewrite Hm.
      split; [ reflexivity | ]. split; [ lia | ].
      change (2 ^ 1) with 2.
      destruct (round_nearest_even_bracket (Zpos p / 2)
                  (loc_of_shr_record (shr_1 (shr_record_of_loc (Zpos p) l))))
        as [B1 B2].
      split; [ exact B1 | ].
      split; [ intros E Hmod; apply B2, Hl; assumption | ].
      split.
      + apply Z.div_le_lower_bound; simpl in *; lia.
      + apply Z.div_lt_upper_bound; simpl in *; lia. }
  destruct Stage1 as (m1 & n1 & E1 & Hn1 & B1 & X1 & R1).
  unfold binary_round_aux.
  destruct (shr_fexp prec emax q e l) as [mrs' e'] eqn:Es.
  injection E1 as Em Ee. rewrite Em, Ee.
  (* second stage *)
  destruct (Z_lt_le_dec m1 (2 ^ 53)) as [ L1 | G1 ].
  - assert (Hm1 : 0 < m1) by (simpl in *; lia).
    destruct m1 as [ | M | M ]; try lia.
    exists M, n1.
    unfold shr_fexp. rewrite fexp_eq.
    rewrite (Zdigits2_bounds (Zpos M) 53) by (simpl in *; lia).
    replace (Z.max (53 + (e + n1) - 53) (-1074) - (e + n1)) with 0 by lia.
    cbn [shr shr_record_of_loc shr_m].
    replace (e + n1 <=? emax - prec) with true
      by (symmetry; apply Z.leb_le; change (emax - prec) with 971; lia).
    split; [ reflexivity | ]. split; [ lia | ]. split; assumption.
  - assert (Em1 : m1 = 2 ^ 53) by (simpl in *; lia).
    clear Em.
    exists (Z.to_pos (2 ^ 52)), (n1 + 1).
    unfold shr_fexp. rewrite fexp_eq.
    rewrite (Zdigits2_bounds m1 54) by (subst m1; simpl; lia).
    replace (Z.max (54 + (e + n1) - 53) (-1074) - (e + n1)) with 1 by lia.
    change (shr_record_of_loc m1 loc_Exact) with (exact_rec m1).
    rewrite shr_exact; [ | subst m1; simpl; lia | lia | subst m1; exists (2 ^ 52); reflexivity ].
    subst m1. change (2 ^ 53 / 2 ^ 1) with (2 ^ 52).
    cbn [exact_rec shr_m]. change (2 ^ 52) with (Zpos (Z.to_pos (2 ^ 52))) at 1.
    cbv iota beta.
    replace (e + n1 + 1 <=? emax - prec) with true
      by (symmetry; apply Z.leb_le; change (emax - prec) with 971; lia).
    split; [ f_equal; lia | ]. split; [ lia | ].
    assert (Hq1 : q / 2 ^ n1 = 2 ^ 53 - 1) by (simpl in *; lia).
    assert (Hdd : q / 2 ^ (n1 + 1) = 2 ^ 52 - 1).
    { rewrite Z.pow_add_r by lia. rewrite <- Z.div_div by (try apply Z.pow_pos_nonneg; lia).
      rewrite Hq1. reflexivity. }
    rewrite Hdd. change (Zpos (Z.to_pos (2 ^ 52))) with (2 ^ 52).
    split; [ simpl; lia | ].
    intros El Hmod. exfalso.
    assert (Hmod1 : q mod 2 ^ n1 = 0).
    { destruct (Z.eq_dec n1 0) as [ -> | ]; [ apply Z.mod_1_r | ].
      replace n1 with 1 in * by lia. change (2 ^ (1 + 1)) with 4 in Hmod.
      change (2 ^ 1) with 2.
      rewrite (Z.div_mod q 4) by lia. rewrite Hmod.
      rewrite Z.add_0_r. replace (4 * (q / 4)) with ((2 * (q / 4)) * 2) by lia.
      apply Z.mod_mul. lia. }
    specialize (X1 El Hmod1). simpl in *. lia.
Qed.

(** *** The quotient of two whole numbers *)
Lemma new_location_exact (n : Z) : new_location n 0 = loc_Exact.
Proof. unfold new_location. destruct (Z.even n); reflexivity. Qed.

Lemma pow_split (a b : Z) : 0 <= a -> 0 <= b -> 2 ^ (a + b) = 2 ^ a * 2 ^ b.
Proof. intros. apply Z.pow_add_r; assumption. Qed.

(** The quotient of two whole numbers under 2^50, as the division computes it:
    a mantissa that is the floor of |a| 2^K / b or one more. *)
Lemma SFdiv_int_bracket (a b : Z) :
  a <> 0 -> - 2 ^ 50 < a < 2 ^ 50 -> 0 < b < 2 ^ 50 ->
  exists (M : positive) (K : Z),
    SFdiv prec emax (SFofZ a) (SFofZ b) = S754_finite (a <? 0) M (- K)
    /\ 1 <= K /\ 2 * b < 2 ^ K
    /\ Z.abs a * 2 ^ K / b <= Zpos M <= Z.abs a * 2 ^ K / b + 1
    /\ ((Z.abs a * 2 ^ K) mod b = 0 -> Zpos M = Z.abs a * 2 ^ K / b).
Proof.
  intros Na Ha Hb.
  destruct (SFofZ_finite a Na) as (pa & Epa & Fa & _).
  destruct (SFofZ_finite b ltac:(lia)) as (pb & Epb & Fb & _).
  replace (b <? 0) with false in Fb by (symmetry; apply Z.ltb_ge; lia).
  rewrite Fa, Fb. clear Fa Fb.
  assert (Hpa : Zpos pa < 2 ^ 50) by lia.
  assert (Hpb : Zpos pb < 2 ^ 50) by lia.
  assert (Hpa53 : Zpos pa < 2 ^ 53) by (simpl in *; lia).
  assert (Hpb53 : Zpos pb < 2 ^ 53) by (simpl in *; lia).
  pose proof (digits2_pos_bounds pa) as [La Ua].
  pose proof (digits2_pos_bounds pb) as [Lb Ub].
  set (da := Zpos (digits2_pos pa)) in *.
  set (db := Zpos (digits2_pos pb)) in *.
  assert (Hda : 1 <= da <= 50).
  { split; [ unfold da; lia | ].
    destruct (Z_le_gt_dec da 50); [ assumption | ].
    assert (2 ^ 50 <= 2 ^ (da - 1)) by (apply Z.pow_le_mono_r; lia). lia. }
  assert (Hdb : 1 <= db <= 50).
  { split; [ unfold db; lia | ].
    destruct (Z_le_gt_dec db 50); [ assumption | ].
    assert (2 ^ 50 <= 2 ^ (db - 1)) by (apply Z.pow_le_mono_r; lia). lia. }
  pose proof (mant_eq pa Hpa53) as Ema. fold da in Ema.
  pose proof (mant_eq pb Hpb53) as Emb. fold db in Emb.
  pose proof (mant_digits pa Hpa53) as Dma.
  pose proof (mant_digits pb Hpb53) as Dmb.
  pose proof (digits2_pos_bounds (mant pa)) as [Lma Uma]. rewrite Dma in Lma, Uma.
  pose proof (digits2_pos_bounds (mant pb)) as [Lmb Umb]. rewrite Dmb in Lmb, Umb.
  change (53 - 1) with 52 in *.
  set (K0 := 53 - da + db).
  (* the core quotient *)
  assert (Hcore : SFdiv_core_binary prec emax (Zpos (mant pa)) (expo pa) (Zpos (mant pb)) (expo pb)
                  = (Zpos pa * 2 ^ K0 / Zpos pb, da - db - 53,
                     new_location (Zpos (mant pb))
                       ((Zpos pa * 2 ^ K0) mod Zpos pb * 2 ^ (53 - db)))).
  { unfold SFdiv_core_binary. cbn [Zdigits2]. rewrite Dma, Dmb, fexp_eq.
    unfold expo. fold da db.
    replace (Z.min (Z.max (53 + (da - 53) - (53 + (db - 53)) - 53) (-1074))
               (da - 53 - (db - 53))) with (da - db - 53) by lia.
    replace (da - 53 - (db - 53) - (da - db - 53)) with 53 by lia.
    rewrite Z.shiftl_mul_pow2 by lia.
    assert (Hnum : Zpos (mant pa) * 2 ^ 53 = (Zpos pa * 2 ^ K0) * 2 ^ (53 - db)).
    { rewrite Ema. unfold K0. rewrite <- !Z.mul_assoc. f_equal.
      rewrite <- !pow_split by lia. f_equal. lia. }
    assert (P0 : 0 < 2 ^ (53 - db)) by (apply Z.pow_pos_nonneg; lia).
    pose proof (Z.div_eucl_eq (Zpos (mant pa) * 2 ^ 53) (Zpos (mant pb)) ltac:(lia)) as Heq.
    pose proof (Z.mod_pos_bound (Zpos (mant pa) * 2 ^ 53) (Zpos (mant pb)) ltac:(lia)) as Hbd.
    unfold Z.modulo in Hbd.
    assert (Hq : Zpos (mant pa) * 2 ^ 53 / Zpos (mant pb) = Zpos pa * 2 ^ K0 / Zpos pb).
    { rewrite Hnum, Emb. apply Z.div_mul_cancel_r; lia. }
    assert (Hr : (Zpos (mant pa) * 2 ^ 53) mod Zpos (mant pb)
                 = (Zpos pa * 2 ^ K0) mod Zpos pb * 2 ^ (53 - db)).
    { rewrite Hnum, Emb. apply Z.mul_mod_distr_r; lia. }
    unfold Z.div in Hq. unfold Z.modulo in Hr.
    destruct (Z.div_eucl (Zpos (mant pa) * 2 ^ 53) (Zpos (mant pb))) as [q r].
    simpl in Hq, Hr. rewrite Hq, Hr. reflexivity. }
  cbn [SFdiv]. rewrite Hcore. clear Hcore.
  set (q := Zpos pa * 2 ^ K0 / Zpos pb).
  assert (P0 : 0 < 2 ^ (53 - db)) by (apply Z.pow_pos_nonneg; lia).
  assert (Hqm : q = Zpos (mant pa) * 2 ^ 53 / Zpos (mant pb)).
  { unfold q. rewrite Ema, Emb. symmetry.
    replace (Zpos pa * 2 ^ (53 - da) * 2 ^ 53) with ((Zpos pa * 2 ^ K0) * 2 ^ (53 - db)).
    - apply Z.div_mul_cancel_r; lia.
    - unfold K0. rewrite <- !Z.mul_assoc. f_equal.
      rewrite <- !pow_split by lia. f_equal. lia. }
  assert (Hqr : 2 ^ 52 <= q < 2 ^ 54).
  { rewrite Hqm. split.
    - apply Z.div_le_lower_bound; [ lia | ].
      change (2 ^ 53) with (2 * 2 ^ 52) in *. nia.
    - apply Z.div_lt_upper_bound; [ lia | ].
      change (2 ^ 54) with (2 * 2 ^ 53). change (2 ^ 53) with (2 * 2 ^ 52) in *. nia. }
  destruct (binary_round_aux_bracket (xorb (a <? 0) false) q (da - db - 53)
              (new_location (Zpos (mant pb))
                 ((Zpos pa * 2 ^ K0) mod Zpos pb * 2 ^ (53 - db)))
              Hqr ltac:(lia) ltac:(lia))
    as (M & n & EM & Hn & BM & XM).
  rewrite xorb_false_r in EM.
  exists M, (K0 - n).
  replace (- (K0 - n)) with (da - db - 53 + n) by (unfold K0; lia).
  split; [ rewrite xorb_false_r; exact EM | ].
  split; [ unfold K0; lia | ].
  assert (Pn : 0 < 2 ^ n) by (apply Z.pow_pos_nonneg; lia).
  assert (PK : 0 < 2 ^ (K0 - n)) by (apply Z.pow_pos_nonneg; unfold K0; lia).
  assert (HK : 2 ^ K0 = 2 ^ (K0 - n) * 2 ^ n).
  { rewrite <- pow_split by (unfold K0; lia). f_equal. lia. }
  split.
  { assert (2 ^ (db + 1) <= 2 ^ (K0 - n)) by (apply Z.pow_le_mono_r; unfold K0; lia).
    rewrite pow_split in H by lia. change (2 ^ 1) with 2 in H.
    lia. }
  assert (Eb : Zpos pb = b) by lia.
  rewrite <- Epa, <- Eb.
  assert (Hdiv : q / 2 ^ n = Zpos pa * 2 ^ (K0 - n) / Zpos pb).
  { unfold q. rewrite Z.div_div by lia. rewrite HK, Z.mul_assoc.
    apply Z.div_mul_cancel_r; lia. }
  rewrite <- Hdiv. split; [ exact BM | ].
  intro Hex. apply XM.
  - replace ((Zpos pa * 2 ^ K0) mod Zpos pb) with 0.
    + rewrite Z.mul_0_l. apply new_location_exact.
    + symmetry. rewrite HK, Z.mul_assoc, <- Z.mul_mod_idemp_l, Hex by lia.
      reflexivity.
  - unfold q. rewrite HK, Z.mul_assoc.
    apply Z.mod_divide in Hex; [ | lia ]. destruct Hex as [c Hc].
    rewrite Hc. replace (c * Zpos pb * 2 ^ n) with (c * 2 ^ n * Zpos pb) by ring.
    rewrite Z.div_mul by lia. apply Z.mod_mul. lia.
Qed.

(** *** Where the rounded quotient lies

    [M] is the mantissa of the rounded quotient of [A] by [b] at the scale
    [P]: whether it has reached a multiple of [P] is whether the exact
    quotient has, for a threshold [T] counted in units or in halves
    ([D] = 1 or 2). *)
Section Thresholds.
Variables (A b P N M D T : Z).
Hypothesis (HA : 0 < A) (Hb : 0 < b) (HP : 0 < P).
Hypothesis (HN : N = A * P / b).
Hypothesis (HM : N <= M <= N + 1).
Hypothesis (HX : (A * P) mod b = 0 -> M = N).
Hypothesis (HD : D = 1 \/ (D = 2 /\ exists P', P = 2 * P')).
Hypothesis (HDb : D * b < P).

Lemma quotient_bounds : N * b <= A * P < (N + 1) * b.
Proof.
  pose proof (Z.div_mod (A * P) b ltac:(lia)) as E.
  pose proof (Z.mod_pos_bound (A * P) b Hb) as B.
  rewrite <- HN in E. nia.
Qed.

Lemma threshold_below : T * P <= D * M <-> T * b <= D * A.
Proof.
  pose proof quotient_bounds as [Q1 Q2].
  split.
  - intro H. destruct (Z_le_gt_dec (T * b) (D * A)) as [ | G ]; [ assumption | exfalso ].
    assert (D * A * P + P <= T * b * P) by nia.
    assert (T * P * b <= D * M * b) by nia.
    assert (D * M * b <= D * (N + 1) * b) by (destruct HD as [ -> | [-> _] ]; nia).
    assert (D * N * b <= D * (A * P)) by (destruct HD as [ -> | [-> _] ]; nia).
    nia.
  - intro H. assert (T * P <= D * N); [ | destruct HD as [ -> | [-> _] ]; nia ].
    destruct HD as [ -> | [-> [P' EP] ] ].
    + rewrite HN, Z.mul_1_l. apply Z.div_le_lower_bound; [ assumption | nia ].
    + assert (T * P' <= N); [ | nia ].
      rewrite HN. apply Z.div_le_lower_bound; [ assumption | ]. subst P. nia.
Qed.

Lemma threshold_above : D * M <= T * P <-> D * A <= T * b.
Proof.
  pose proof quotient_bounds as [Q1 Q2].
  split.
  - intro H. destruct (Z_le_gt_dec (D * A) (T * b)) as [ | G ]; [ assumption | exfalso ].
    assert (T * b * P + P <= D * A * P) by nia.
    assert (D * M * b <= T * P * b) by nia.
    assert (D * N * b <= D * M * b) by (destruct HD as [ -> | [-> _] ]; nia).
    assert (D * (A * P) < D * (N + 1) * b) by (destruct HD as [ -> | [-> _] ]; nia).
    nia.
  - intro H.
    destruct (Z.eq_dec ((A * P) mod b) 0) as [ Ex | Nx ].
    + rewrite (HX Ex).
      pose proof (Z.div_mod (A * P) b ltac:(lia)) as E. rewrite Ex, <- HN in E.
      assert (D * N * b <= T * P * b) by nia. nia.
    + pose proof (Z.div_mod (A * P) b ltac:(lia)) as E.
      pose proof (Z.mod_pos_bound (A * P) b Hb) as B. rewrite <- HN in E.
      assert (Q3 : N * b < A * P) by lia.
      assert (D * (N + 1) <= T * P); [ | destruct HD as [ -> | [-> _] ]; nia ].
      destruct HD as [ -> | [-> [P' EP] ] ].
      * assert (N * b < T * P * b) by nia. nia.
      * subst P. assert (N * b < T * P' * b) by nia. nia.
Qed.
End Thresholds.

(** *** The floor and the half-up rounding of a quotient *)
Lemma pixels_small (z : Z) : pixels z -> small z.
Proof. unfold pixels, small. simpl. lia. Qed.

Section Quotients.
Variables (a b K : Z) (M : positive).
Hypothesis (Na : a <> 0) (Hb : 0 < b) (HK : 1 <= K) (HbK : 2 * b < 2 ^ K).
Hypothesis (HM : Z.abs a * 2 ^ K / b <= Zpos M <= Z.abs a * 2 ^ K / b + 1).
Hypothesis (HX : (Z.abs a * 2 ^ K) mod b = 0 -> Zpos M = Z.abs a * 2 ^ K / b).

Lemma pow2_pos : 0 < 2 ^ K.
Proof. apply Z.pow_pos_nonneg; lia. Qed.

Lemma pow2_even : exists P', 2 ^ K = 2 * P'.
Proof.
  exists (2 ^ (K - 1)).
  replace K with (1 + (K - 1)) at 1 by lia.
  rewrite Z.pow_add_r by lia. reflexivity.
Qed.

Lemma mantissa_below (D T : Z) : D = 1 \/ D = 2 ->
  (T * 2 ^ K <= D * Zpos M <-> T * b <= D * Z.abs a).
Proof.
  intro HD. pose proof pow2_pos. pose proof pow2_even.
  apply (threshold_below (Z.abs a) b (2 ^ K) (Z.abs a * 2 ^ K / b) (Zpos M) D T);
    try assumption; try lia; try reflexivity.
  destruct HD as [ -> | -> ]; [ left; reflexivity | right; split; [ reflexivity | assumption ] ].
Qed.

Lemma mantissa_above (D T : Z) : D = 1 \/ D = 2 ->
  (D * Zpos M <= T * 2 ^ K <-> D * Z.abs a <= T * b).
Proof.
  intro HD. pose proof pow2_pos. pose proof pow2_even.
  apply (threshold_above (Z.abs a) b (2 ^ K) (Z.abs a * 2 ^ K / b) (Zpos M) D T);
    try assumption; try lia; try reflexivity.
  destruct HD as [ -> | -> ]; [ left; reflexivity | right; split; [ reflexivity | assumption ] ].
Qed.

(** The floor of the rounded quotient is the floor of the quotient. *)
Lemma floor_of_quotient : cond_Zopp (a <? 0) (Zpos M) / 2 ^ K = a / b.
Proof.
  pose proof pow2_pos as HP.
  pose proof (Z.div_mod a b ltac:(lia)) as E.
  pose proof (Z.mod_pos_bound a b Hb) as B.
  set (n := a / b) in *.
  destruct (Z.ltb_spec a 0) as [ Neg | Pos ]; cbn [cond_Zopp].
  - pose proof (mantissa_above 1 (- n) ltac:(auto)) as A1.
    pose proof (mantissa_above 1 (- (n + 1)) ltac:(auto)) as A2.
    rewrite Z.abs_neq in A1, A2 by lia.
    assert (1 * Zpos M <= - n * 2 ^ K) by (apply A1; nia).
    assert (~ 1 * Zpos M <= - (n + 1) * 2 ^ K) by (rewrite A2; nia).
    symmetry. apply (Z.div_unique _ _ n (- Zpos M - 2 ^ K * n)); [ left | lia ].
    nia.
  - pose proof (mantissa_below 1 n ltac:(auto)) as A1.
    pose proof (mantissa_below 1 (n + 1) ltac:(auto)) as A2.
    rewrite Z.abs_eq in A1, A2 by lia.
    assert (n * 2 ^ K <= 1 * Zpos M) by (apply A1; nia).
    assert (~ (n + 1) * 2 ^ K <= 1 * Zpos M) by (rewrite A2; nia).
    symmetry. apply (Z.div_unique _ _ n (Zpos M - 2 ^ K * n)); [ left | lia ].
    nia.
Qed.

(** Rounding the rounded quotient half up is rounding the quotient half
    up. *)
Lemma round_of_quotient :
  (2 * cond_Zopp (a <? 0) (Zpos M) + 2 ^ K) / (2 * 2 ^ K)
  = (2 * a + b) / (2 * b).
Proof.
  pose proof pow2_pos as HP.
  pose proof (Z.div_mod (2 * a + b) (2 * b) ltac:(lia)) as E.
  pose proof (Z.mod_pos_bound (2 * a + b) (2 * b) ltac:(lia)) as B.
  set (n := (2 * a + b) / (2 * b)) in *.
  destruct (Z.ltb_spec a 0) as [ Neg | Pos ]; cbn [cond_Zopp].
  - pose proof (mantissa_above 2 (1 - 2 * n) ltac:(auto)) as A1.
    pose proof (mantissa_above 2 (- (2 * n + 1)) ltac:(auto)) as A2.
    rewrite Z.abs_neq in A1, A2 by lia.
    assert (2 * Zpos M <= (1 - 2 * n) * 2 ^ K) by (apply A1; nia).
    assert (~ 2 * Zpos M <= - (2 * n + 1) * 2 ^ K) by (rewrite A2; nia).
    symmetry.
    apply (Z.div_unique _ _ n (2 * - Zpos M + 2 ^ K - 2 * 2 ^ K * n)); [ left | lia ].
    nia.
  - pose proof (mantissa_below 2 (2 * n - 1) ltac:(auto)) as A1.
    pose proof (mantissa_below 2 (2 * n + 1) ltac:(auto)) as A2.
    rewrite Z.abs_eq in A1, A2 by lia.
    assert ((2 * n - 1) * 2 ^ K <= 2 * Zpos M) by (apply A1; nia).
    assert (~ (2 * n + 1) * 2 ^ K <= 2 * Zpos M) by (rewrite A2; nia).
    symmetry.
    apply (Z.div_unique _ _ n (2 * Zpos M + 2 ^ K - 2 * 2 ^ K * n)); [ left | lia ].
    nia.
Qed.
End Quotients.

(** *** The operations of the machine on whole numbers *)
Lemma Prim2SF_of_Z (z : Z) : small z -> Prim2SF (of_Z z) = SFofZ z.
Proof.
  intro H. unfold of_Z. rewrite binary_normalize_int by exact H.
  apply Prim2SF_SF2Prim, SFofZ_valid, H.
Qed.

(** [+], [-], [*] and [<=] of the machine on whole numbers. *)
Lemma of_Z_add (a b : Z) : small a -> small b -> small (a + b) ->
  (of_Z a + of_Z b)%float = of_Z (a + b).
Proof.
  intros Ha Hb Hab. apply Prim2SF_inj.
  rewrite add_spec, !Prim2SF_of_Z by assumption. apply SFadd_int; assumption.
Qed.

Lemma of_Z_sub (a b : Z) : small a -> small b -> small (a - b) ->
  (of_Z a - of_Z b)%float = of_Z (a - b).
Proof.
  intros Ha Hb Hab. apply Prim2SF_inj.
  rewrite sub_spec, !Prim2SF_of_Z by assumption. apply SFsub_int; assumption.
Qed.

Lemma of_Z_mul (a b : Z) : small a -> small b -> small (a * b) -> 0 < b ->
  (of_Z a * of_Z b)%float = of_Z (a * b).
Proof.
  intros Ha Hb Hab Pb. apply Prim2SF_inj.
  rewrite mul_spec, !Prim2SF_of_Z by assumption. apply SFmul_int; assumption.
Qed.

Lemma of_Z_leb (a b : Z) : small a -> small b ->
  (of_Z a <=? of_Z b)%float = (a <=? b).
Proof.
  intros Ha Hb. rewrite leb_spec, !Prim2SF_of_Z by assumption.
  unfold SFleb. rewrite SFcompare_int by assumption.
  unfold Z.leb. destruct (a ?= b); reflexivity.
Qed.

(** Quotients stay within the bounds. *)
Lemma quotient_small (a b : Z) : pixels a -> 0 < b -> pixels (a / b).
Proof.
  unfold pixels. change (2 ^ 50) with 1125899906842624.
  intros [H1 H2] Hb. split.
  - assert (- 1125899906842624 + 1 <= a / b); [ | lia ].
    apply Z.div_le_lower_bound; [ assumption | ]. nia.
  - apply Z.div_lt_upper_bound; [ assumption | ]. nia.
Qed.

(** [Math.floor(a / b)] on whole numbers is the integer quotient. *)
Lemma Math_floor_div (a b : Z) : pixels a -> 0 < b < 2 ^ 50 ->
  Math_floor (of_Z a / of_Z b) = of_Z (a / b).
Proof.
  intros Ha Hb.
  assert (Sa : small a) by (apply pixels_small; exact Ha).
  assert (Sb : small b) by (apply pixels_small; unfold pixels; lia).
  unfold Math_floor.
  rewrite div_spec, !Prim2SF_of_Z by assumption.
  destruct (Z.eq_dec a 0) as [ -> | Na ].
  - assert (E : SF64div (SFofZ 0) (SFofZ b) = S754_zero false).
    { destruct (SFofZ_finite b ltac:(lia)) as (pb & _ & -> & _).
      replace (b <? 0) with false by (symmetry; apply Z.ltb_ge; lia).
      reflexivity. }
    rewrite E. rewrite Z.div_0_l by lia.
    apply Prim2SF_inj. rewrite div_spec, !Prim2SF_of_Z by assumption.
    exact E.
  - destruct (SFdiv_int_bracket a b Na Ha Hb) as (M & K & E & HK & HbK & HM & HX).
    unfold SF64div. rewrite E.
    replace (0 <=? - K) with false by (symmetry; apply Z.leb_gt; lia).
    rewrite Z.opp_involutive. f_equal.
    apply floor_of_quotient; try assumption; lia.
Qed.

(** [Math.round(a / b) - 1] on whole numbers: the quotient rounded half
    up, less one. *)
Lemma Math_round_div (a b : Z) : pixels a -> 0 < b < 2 ^ 50 ->
  (Math_round (of_Z a / of_Z b) - 1)%float = of_Z ((2 * a + b) / (2 * b) - 1).
Proof.
  intros Ha Hb.
  assert (Sa : small a) by (apply pixels_small; exact Ha).
  assert (Sb : small b) by (apply pixels_small; unfold pixels; lia).
  assert (Hq : - 2 ^ 50 < (2 * a + b) / (2 * b) <= 2 ^ 50).
  { destruct Ha as [H1 H2]. revert H1 H2.
    change (2 ^ 50) with 1125899906842624. intros H1 H2.
    split.
    - assert (- 1125899906842624 + 1 <= (2 * a + b) / (2 * b)); [ | lia ].
      apply Z.div_le_lower_bound; [ lia | ]. nia.
    - apply Z.div_le_upper_bound; [ lia | ]. nia. }
  assert (Sn : small ((2 * a + b) / (2 * b))) by (unfold small; simpl in *; lia).
  assert (Sn1 : small ((2 * a + b) / (2 * b) - 1)) by (unfold small; simpl in *; lia).
  assert (S1 : small 1) by (unfold small; simpl; lia).
  change 1%float with (of_Z 1).
  unfold Math_round.
  rewrite div_spec, !Prim2SF_of_Z by assumption.
  destruct (Z.eq_dec a 0) as [ -> | Na ].
  - assert (E : SF64div (SFofZ 0) (SFofZ b) = S754_zero false).
    { destruct (SFofZ_finite b ltac:(lia)) as (pb & _ & -> & _).
      replace (b <? 0) with false by (symmetry; apply Z.ltb_ge; lia).
      reflexivity. }
    rewrite E.
    replace (of_Z 0 / of_Z b)%float with (of_Z 0).
    + rewrite of_Z_sub by (try assumption; unfold small; simpl; lia).
      f_equal. rewrite Z.mul_0_r, Z.add_0_l.
      rewrite Z.div_small by lia. reflexivity.
    + apply Prim2SF_inj. rewrite div_spec, !Prim2SF_of_Z by (try assumption; unfold small; simpl; lia).
      symmetry. exact E.
  - destruct (SFdiv_int_bracket a b Na Ha Hb) as (M & K & E & HK & HbK & HM & HX).
    unfold SF64div. rewrite E.
    replace (0 <=? - K) with false by (symmetry; apply Z.leb_gt; lia).
    rewrite Z.opp_involutive. cbv zeta.
    replace (2 ^ (K + 1)) with (2 * 2 ^ K)
      by (rewrite Z.pow_add_r by lia; change (2 ^ 1) with 2; lia).
    rewrite (round_of_quotient a b K M) by (try assumption; lia).
    destruct (((2 * a + b) / (2 * b) =? 0) && (a <? 0)) eqn:Ez.
    + apply andb_true_iff in Ez. destruct Ez as [Ez _].
      apply Z.eqb_eq in Ez. rewrite Ez. reflexivity.
    + apply of_Z_sub; assumption.
Qed.

(** ** Viewport-fit scrolling *)

(** The method on a component with a panel, a key manager and a rendered
    option: the three branches, on the quantities of the specification. *)
Lemma adjustScrollTop_unfold {V G : Type}
  (count : Z -> list (@MatOption V) -> G -> Z)
  (c : @MatSelectSearchComponent V G) (p : Panel) (km : KeyManager) :
  panel (matSelect c) = Some p ->
  _keyManager (matSelect c) = Some km ->
  options (matSelect c) <> [] ->
  let R := getMatOptionHeight c in
  let h := innerSelectSearch_offsetHeight c in
  let i := Spec.activeRowIndex count c km in
  let first := Spec.firstVisible (scrollTop p) h R in
  adjustScrollTopToFitActiveOptionIntoView count c =
  Normal (if Js.ge first (Js.of_Z i)
          then write_scrollTop (Js.of_Z i * R)%float c
          else if (first + Spec.visibleCount h R <=? Js.of_Z i)%float
          then write_scrollTop
                 (Js.of_Z (i + 1) * R - (SELECT_PANEL_MAX_HEIGHT - h))%float c
          else c).
Proof.
  intros Hp Hk Ho R h i first.
  assert (Hlen : (0 <? Z.of_nat (List.length (options (matSelect c)))) = true).
  { apply Z.ltb_lt. destruct (options (matSelect c)); [ congruence | ].
    simpl List.length. lia. }
  assert (Hi : (match matOption c with Some _ => -1 | None => 0 end)
               + count (match activeItemIndex km with Some n => n | None => 0 end)
                       (options (matSelect c)) (optionGroups (matSelect c))
               + (match activeItemIndex km with Some n => n | None => 0 end)
               = i).
  { subst i. unfold Spec.activeRowIndex. destruct (matOption c); lia. }
  unfold adjustScrollTopToFitActiveOptionIntoView.
  rewrite Hp, Hk, Hlen.
  cbn [deref Js.bind].
  rewrite Hi. cbv zeta.
  change (Math_round
            ((scrollTop p + innerSelectSearch_offsetHeight c)
             / getMatOptionHeight c) - 1)%float with first.
  change (Math_floor
            ((SELECT_PANEL_MAX_HEIGHT - innerSelectSearch_offsetHeight c)
             / getMatOptionHeight c)%float) with (Spec.visibleCount h R).
  destruct (Js.ge first (Js.of_Z i)); [ reflexivity | ].
  destruct (first + Spec.visibleCount h R <=? Js.of_Z i)%float; reflexivity.
Qed.

(** Rows of a positive height are rendered rows. *)
Lemma positive_height_rows {V G : Type} (c : @MatSelectSearchComponent V G) :
  (0 <? getMatOptionHeight c)%float = true -> options (matSelect c) <> [].
Proof.
  unfold getMatOptionHeight. intros H E. rewrite E in H.
  vm_compute in H. discriminate H.
Qed.

(** C1. With a panel, a key manager and rows of height R > 0, the method
    takes visibleCount = floor((256 - header)/R) and
    firstVisible = round((scroll + header)/R) - 1, the active row index being
    the active item index plus the group labels before it, minus 1 inside a
    mat-option.  If firstVisible >= index it writes index * R; else if
    firstVisible + visibleCount <= index it writes
    (index + 1) * R - (256 - header); otherwise it leaves the component as it
    is.  The scroll offset of the component returned is the number written.
    With header 56, row height 40, scroll 0 and index 7 the new offset is
    120. *)
Theorem adjustScrollTop_branches {V G : Type}
  (count : Z -> list (@MatOption V) -> G -> Z)
  (c : @MatSelectSearchComponent V G) (p : Panel) (km : KeyManager) :
  panel (matSelect c) = Some p ->
  _keyManager (matSelect c) = Some km ->
  (0 <? getMatOptionHeight c)%float = true ->
  let R := getMatOptionHeight c in
  let h := innerSelectSearch_offsetHeight c in
  let s := scrollTop p in
  let i := Spec.activeRowIndex count c km in
  let visibleCount := Math_floor ((256 - h) / R)%float in
  let firstVisible := (Math_round ((s + h) / R) - 1)%float in
  let up := (Js.of_Z i * R)%float in
  let down := (Js.of_Z (i + 1) * R - (256 - h))%float in
  (Js.ge firstVisible (Js.of_Z i) = true ->
   adjustScrollTopToFitActiveOptionIntoView count c
   = Normal (write_scrollTop up c)
   /\ Spec.scrollOffset (write_scrollTop up c) = Some up)
  /\ (Js.ge firstVisible (Js.of_Z i) = false ->
      (firstVisible + visibleCount <=? Js.of_Z i)%float = true ->
      adjustScrollTopToFitActiveOptionIntoView count c
      = Normal (write_scrollTop down c)
      /\ Spec.scrollOffset (write_scrollTop down c) = Some down)
  /\ (Js.ge firstVisible (Js.of_Z i) = false ->
      (firstVisible + visibleCount <=? Js.of_Z i)%float = false ->
      adjustScrollTopToFitActiveOptionIntoView count c = Normal c
      /\ Spec.scrollOffset c = Some s)
  /\ (h = 56%float -> R = 40%float -> s = 0%float -> i = 7 ->
      adjustScrollTopToFitActiveOptionIntoView count c
      = Normal (write_scrollTop 120 c)
      /\ Spec.scrollOffset (write_scrollTop 120 c) = Some 120%float).
Proof.
  intros Hp Hk HR R h s i visibleCount firstVisible up down.
  pose proof (adjustScrollTop_unfold count c p km Hp Hk
                (positive_height_rows c HR)) as E.
  cbv zeta in E. fold R h i in E.
  change (Spec.firstVisible (scrollTop p) h R) with firstVisible in E.
  change (Spec.visibleCount h R) with visibleCount in E.
  change SELECT_PANEL_MAX_HEIGHT with 256%float in E.
  fold up down in E.
  repeat split.
  - rewrite E, H. reflexivity.
  - rewrite E, H, H0. reflexivity.
  - rewrite E, H, H0. reflexivity.
  - unfold Spec.scrollOffset. rewrite Hp. reflexivity.
  - rewrite E. subst firstVisible visibleCount up down.
    rewrite H, H0, H1, H2.
    replace (Js.ge (Math_round ((0 + 56) / 40) - 1) (Js.of_Z 7)) with false
      by (vm_compute; reflexivity).
    replace (Math_round ((0 + 56) / 40) - 1 + Math_floor ((256 - 56) / 40)
             <=? Js.of_Z 7)%float with true
      by (vm_compute; reflexivity).
    replace (Js.of_Z (7 + 1) * 40 - (256 - 56))%float with 120%float
      by (vm_compute; reflexivity).
    reflexivity.
Qed.

(** The scenario of the specification: the offset written is 120. *)
Lemma adjustScrollTop_branches_witness :
  adjustScrollTopToFitActiveOptionIntoView Samples.noLabels Samples.scenario
  = Normal (write_scrollTop 120 Samples.scenario)
  /\ Spec.scrollOffset (write_scrollTop 120 Samples.scenario)
     = Some 120%float.
Proof.
  refine (proj2 (proj2 (proj2
    (adjustScrollTop_branches Samples.noLabels Samples.scenario
       (mkPanel 0) (mkKeyManager (Some 7)) _ _ _))) _ _ _ _).
  - reflexivity.
  - reflexivity.
  - vm_compute. reflexivity.
  - reflexivity.
  - reflexivity.
  - reflexivity.
  - reflexivity.
Defined.

(** A division by the row height 0 leaves the finite numbers. *)
Lemma division_by_zero (a : float) : is_finite (a / 0) = false.
Proof.
  unfold is_finite, is_nan, is_infinity.
  rewrite !FloatAxioms.eqb_spec, abs_spec, !div_spec.
  change (Prim2SF 0) with (S754_zero false).
  change (Prim2SF infinity) with (S754_infinity false).
  destruct (Prim2SF a) as [ s | s | | s m e ]; try destruct s; reflexivity.
Qed.

(** C8. With no rendered option the method is a no-op behind the check of the
    number of options: the row height is 0, a division by it would leave the
    finite numbers, and the method returns the component as it is, whatever
    its other fields hold. *)
Theorem adjustScrollTop_no_options {V G : Type}
  (count : Z -> list (@MatOption V) -> G -> Z)
  (c : @MatSelectSearchComponent V G) :
  options (matSelect c) = [] ->
  getMatOptionHeight c = 0%float
  /\ (forall a : float, is_finite (a / getMatOptionHeight c) = false)
  /\ adjustScrollTopToFitActiveOptionIntoView count c = Normal c.
Proof.
  intro Ho.
  assert (HR : getMatOptionHeight c = 0%float)
    by (unfold getMatOptionHeight; rewrite Ho; reflexivity).
  repeat split.
  - exact HR.
  - intro a. rewrite HR. apply division_by_zero.
  - unfold adjustScrollTopToFitActiveOptionIntoView. rewrite Ho.
    destruct (panel (matSelect c)); reflexivity.
Qed.

Lemma adjustScrollTop_no_options_witness :
  adjustScrollTopToFitActiveOptionIntoView Samples.noLabels Samples.emptyList
  = Normal Samples.emptyList.
Proof.
  refine (proj2 (proj2
    (adjustScrollTop_no_options Samples.noLabels Samples.emptyList _))).
  reflexivity.
Defined.

(** The check is on the number of options, not on the height: rendered rows
    of height 0 reach the divisions, which give infinities; the first visible
    row is then beyond every row and the method writes 1 * 0 = 0. *)
Example adjustScrollTop_zero_height_rows :
  let c := Samples.component (Samples.select 30 (Samples.rows 3 0) 1) 56 in
  Spec.visibleCount 56 0 = infinity
  /\ Spec.firstVisible 30 56 0 = infinity
  /\ adjustScrollTopToFitActiveOptionIntoView Samples.noLabels c
     = Normal (write_scrollTop 0 c).
Proof. repeat split; vm_compute; reflexivity. Qed.

(** Without a key manager the method throws where it reads
    [_keyManager.activeItemIndex]. *)
Example adjustScrollTop_no_keyManager :
  exists e : string,
    adjustScrollTopToFitActiveOptionIntoView Samples.noLabels
      (Samples.component
         (mkMatSelect (Some (mkPanel 0)) (Samples.rows 3 40) tt None false
                      None String.eqb [])
         56)
    = Throw e.
Proof. eexists. reflexivity. Qed.

(** Fractional measures are rounded: over rows of 41.6 (0x1.4cccccccccccdp+5)
    under a header of 48 the quotient 208 / 41.6 is 5 in binary64 where the
    exact quotient of the two binary64 numbers is just below 5.  With row 6
    active at scroll offset 90 the window ends at row 2 + 5 and the method
    leaves the offset. *)
Example adjustScrollTop_fractional_rows :
  let R := 0x1.4cccccccccccdp+5%float in
  let c := Samples.component (Samples.select 90 (Samples.rows 12 R) 6) 48 in
  Spec.visibleCount 48 R = 5%float
  /\ Spec.firstVisible 90 48 R = 2%float
  /\ adjustScrollTopToFitActiveOptionIntoView Samples.noLabels c = Normal c.
Proof. cbv zeta. repeat split; vm_compute; reflexivity. Qed.

(** What a written component keeps. *)
Lemma write_scrollTop_frame {V G : Type} (S : float)
  (c : @MatSelectSearchComponent V G) :
  panel (matSelect (write_scrollTop S c)) = Some (mkPanel S)
  /\ options (matSelect (write_scrollTop S c)) = options (matSelect c)
  /\ _keyManager (matSelect (write_scrollTop S c)) = _keyManager (matSelect c)
  /\ getMatOptionHeight (write_scrollTop S c) = getMatOptionHeight c
  /\ innerSelectSearch_offsetHeight (write_scrollTop S c)
     = innerSelectSearch_offsetHeight c.
Proof. repeat split. Qed.

Lemma write_scrollTop_twice {V G : Type} (S T : float)
  (c : @MatSelectSearchComponent V G) :
  write_scrollTop T (write_scrollTop S c) = write_scrollTop T c.
Proof. reflexivity. Qed.

Lemma write_scrollTop_same {V G : Type}
  (c : @MatSelectSearchComponent V G) (p : Panel) :
  panel (matSelect c) = Some p -> write_scrollTop (scrollTop p) c = c.
Proof.
  destruct c as [ m ? ? ? ? ? ? ? ? ? ? ? ? ? ? ? ].
  destruct m as [ pn ? ? ? ? ? ? ? ]. cbn. intros ->.
  destruct p. reflexivity.
Qed.

Lemma activeRowIndex_write {V G : Type}
  (count : Z -> list (@MatOption V) -> G -> Z) (S : float)
  (c : @MatSelectSearchComponent V G) (km : KeyManager) :
  Spec.activeRowIndex count (write_scrollTop S c) km
  = Spec.activeRowIndex count c km.
Proof. reflexivity. Qed.

(** *** Whole pixels *)

(** The powers of two of the bounds, as numerals. *)
Ltac bounds :=
  unfold Spec.wholePixels, pixels, small in *;
  change (2 ^ 16) with 65536 in *;
  change (2 ^ 31) with 2147483648 in *;
  change (2 ^ 48) with 281474976710656 in *;
  change (2 ^ 50) with 1125899906842624 in *;
  change (2 ^ 53) with 9007199254740992 in *.

Lemma div_ge (n a b : Z) : 0 < b -> (n <= a / b <-> n * b <= a).
Proof.
  intro Hb. split; intro H.
  - pose proof (Z.mul_div_le a b Hb). nia.
  - apply Z.div_le_lower_bound; [ exact Hb | lia ].
Qed.

Lemma div_lt (n a b : Z) : 0 < b -> (a / b < n <-> a < n * b).
Proof. intro Hb. pose proof (div_ge n a b Hb). lia. Qed.


(** The measures the method computes on whole pixels stay whole and
    small. *)
Lemma rowsVisible_bounds (r h s i : Z) : Spec.wholePixels r h s i ->
  - 2 ^ 16 < Spec.rowsVisible h r < 2 ^ 16.
Proof.
  intro W. bounds. unfold Spec.rowsVisible.
  assert (- 65536 < (256 - h) / r) by (apply Z.lt_le_trans with (- 65535);
    [ lia | apply div_ge; nia ]).
  assert ((256 - h) / r < 65536) by (apply div_lt; nia).
  lia.
Qed.

Lemma firstRow_bounds (r h s i : Z) : Spec.wholePixels r h s i ->
  - 2 ^ 50 < Spec.firstRow s h r < 2 ^ 50.
Proof.
  intro W. bounds. unfold Spec.firstRow.
  assert (- 1125899906842620 <= (2 * (s + h) + r) / (2 * r))
    by (apply div_ge; nia).
  assert ((2 * (s + h) + r) / (2 * r) < 1125899906842620)
    by (apply div_lt; nia).
  lia.
Qed.

Lemma fit_bounds (r h s i : Z) : Spec.wholePixels r h s i ->
  Spec.wholePixels r h (Spec.fit s h r i) i.
Proof.
  intro W. unfold Spec.fit.
  destruct (i <=? Spec.firstRow s h r);
    [ | destruct (Spec.firstRow s h r + Spec.rowsVisible h r <=? i) ];
    bounds; repeat split; try lia; nia.
Qed.

Section WholePixels.

Context {V G : Type}.
Variable count : Z -> list (@MatOption V) -> G -> Z.
Variables (r h s i : Z).
Hypothesis W : Spec.wholePixels r h s i.

Lemma visibleCount_whole :
  Spec.visibleCount (Js.of_Z h) (Js.of_Z r) = Js.of_Z (Spec.rowsVisible h r).
Proof.
  unfold Spec.visibleCount, Spec.rowsVisible.
  change SELECT_PANEL_MAX_HEIGHT with (Js.of_Z 256).
  rewrite of_Z_sub by (bounds; lia).
  apply Math_floor_div; bounds; lia.
Qed.

Lemma firstVisible_whole :
  Spec.firstVisible (Js.of_Z s) (Js.of_Z h) (Js.of_Z r)
  = Js.of_Z (Spec.firstRow s h r).
Proof.
  unfold Spec.firstVisible, Spec.firstRow.
  rewrite of_Z_add by (bounds; lia).
  apply Math_round_div; bounds; lia.
Qed.

Lemma inWindow_whole :
  Spec.inWindow (Js.of_Z s) (Js.of_Z h) (Js.of_Z r) i
  <-> Spec.rowInWindow s h r i.
Proof.
  pose proof (rowsVisible_bounds r h s i W) as BV.
  unfold Spec.inWindow, Spec.rowInWindow. cbv zeta.
  rewrite visibleCount_whole.
  rewrite of_Z_add by (bounds; lia).
  rewrite Math_floor_div by (bounds; lia).
  assert (Bq : - 2 ^ 50 < (s + h) / r < 2 ^ 50).
  { bounds.
    assert (- 1125899906842620 <= (s + h) / r) by (apply div_ge; nia).
    assert ((s + h) / r < 1125899906842620) by (apply div_lt; nia).
    lia. }
  change 1%float with (Js.of_Z 1).
  rewrite of_Z_sub by (bounds; lia).
  rewrite of_Z_add by (bounds; lia).
  rewrite !of_Z_leb by (bounds; lia).
  rewrite !Z.leb_le. reflexivity.
Qed.

(** On whole pixels the method computes on integers. *)
Lemma adjustScrollTop_whole_pixels
  (c : @MatSelectSearchComponent V G) (p : Panel) (km : KeyManager) :
  panel (matSelect c) = Some p ->
  _keyManager (matSelect c) = Some km ->
  getMatOptionHeight c = Js.of_Z r ->
  innerSelectSearch_offsetHeight c = Js.of_Z h ->
  scrollTop p = Js.of_Z s ->
  Spec.activeRowIndex count c km = i ->
  adjustScrollTopToFitActiveOptionIntoView count c
  = Normal (write_scrollTop (Js.of_Z (Spec.fit s h r i)) c).
Proof.
  intros Hp Hk HR Hh Hs Hi.
  pose proof (rowsVisible_bounds r h s i W) as BV.
  pose proof (firstRow_bounds r h s i W) as BF.
  assert (Ho : options (matSelect c) <> []).
  { intro E. unfold getMatOptionHeight in HR. rewrite E in HR.
    assert (HP : Prim2SF 0 = Prim2SF (Js.of_Z r)) by (rewrite HR; reflexivity).
    rewrite Prim2SF_of_Z in HP by (bounds; lia).
    destruct r; try discriminate HP. bounds; lia. }
  rewrite (adjustScrollTop_unfold count c p km Hp Hk Ho).
  rewrite HR, Hh, Hs, Hi.
  rewrite visibleCount_whole, firstVisible_whole.
  unfold Js.ge, Spec.fit.
  rewrite of_Z_add by (bounds; lia).
  rewrite !of_Z_leb by (bounds; lia).
  destruct (i <=? Spec.firstRow s h r).
  - rewrite of_Z_mul by (bounds; try lia; nia). reflexivity.
  - destruct (Spec.firstRow s h r + Spec.rowsVisible h r <=? i).
    + change SELECT_PANEL_MAX_HEIGHT with (Js.of_Z 256).
      rewrite of_Z_mul by (bounds; try lia; nia).
      rewrite of_Z_sub by (bounds; lia).
      rewrite of_Z_sub by (bounds; try lia; nia).
      reflexivity.
    + rewrite <- Hs. rewrite write_scrollTop_same by exact Hp. reflexivity.
Qed.

End WholePixels.

(** The first visible row at the two offsets the method writes. *)
Lemma firstRow_up (r h i : Z) : 0 < r ->
  Spec.firstRow (i * r) h r = i + (2 * h + r) / (2 * r) - 1.
Proof.
  intro Hr. unfold Spec.firstRow.
  replace (2 * (i * r + h) + r) with (i * (2 * r) + (2 * h + r)) by lia.
  rewrite Z.div_add_l by lia. reflexivity.
Qed.

Lemma firstRow_down (r h i : Z) : 0 < r ->
  Spec.firstRow ((i + 1) * r - (256 - h)) h r
  = i + (4 * h - 512 + r) / (2 * r).
Proof.
  intro Hr. unfold Spec.firstRow.
  replace (2 * ((i + 1) * r - (256 - h) + h) + r)
    with ((i + 1) * (2 * r) + (4 * h - 512 + r)) by lia.
  rewrite Z.div_add_l by lia. lia.
Qed.

Lemma firstRow_one_row (r h : Z) : 0 < r ->
  Spec.firstRow r h r = (2 * h + r) / (2 * r).
Proof.
  intro Hr. pose proof (firstRow_up r h 1 Hr) as E.
  rewrite Z.mul_1_l in E. rewrite E. lia.
Qed.

Lemma firstRow_zero (r h : Z) :
  Spec.firstRow 0 h r = (2 * h + r) / (2 * r) - 1.
Proof. unfold Spec.firstRow. rewrite Z.add_0_l. reflexivity. Qed.

(** At a scroll offset of one row the first row is scrolled up to. *)
Lemma fit_one_row (r h : Z) : 0 < r -> 0 <= h -> Spec.fit r h r 0 = 0.
Proof.
  intros Hr Hh. unfold Spec.fit. rewrite firstRow_one_row by exact Hr.
  assert (0 <= (2 * h + r) / (2 * r)) by (apply div_ge; lia).
  destruct (Z.leb_spec 0 ((2 * h + r) / (2 * r))); lia.
Qed.

(** An index past the first visible row and the window, at scroll offset
    0. *)
Lemma row_below_window (r h : Z) : 0 < r < 2 ^ 16 -> 0 <= h < 2 ^ 16 ->
  let i := Spec.firstRow 0 h r + 1 + Z.abs (Spec.rowsVisible h r) in
  Spec.wholePixels r h 0 i
  /\ Spec.fit 0 h r i = (i + 1) * r - (256 - h).
Proof.
  intros Hr Hh i.
  assert (W0 : Spec.wholePixels r h 0 0) by (bounds; lia).
  pose proof (rowsVisible_bounds r h 0 0 W0) as BV.
  assert (BF : -1 <= Spec.firstRow 0 h r < 2 ^ 17).
  { unfold Spec.firstRow. bounds. change (2 ^ 17) with 131072.
    assert (0 <= (2 * (0 + h) + r) / (2 * r)) by (apply div_ge; lia).
    assert ((2 * (0 + h) + r) / (2 * r) < 131072) by (apply div_lt; nia).
    lia. }
  split.
  - subst i. bounds. change (2 ^ 17) with 131072 in *. lia.
  - unfold Spec.fit.
    destruct (Z.leb_spec i (Spec.firstRow 0 h r)); [ subst i; lia | ].
    destruct (Z.leb_spec (Spec.firstRow 0 h r + Spec.rowsVisible h r) i);
      [ reflexivity | subst i; lia ].
Qed.



(** The conditions of the window are needed: where one fails, some scroll
    offset and row index leave the active row outside the window. *)
Lemma fit_window_needs (r h : Z) : 0 < r < 2 ^ 16 -> 0 <= h < 2 ^ 16 ->
  ~ (h / r <= 1 <= h / r + Spec.rowsVisible h r
     /\ (2 * h - 256) / r <= 0 <= (2 * h - 256) / r + Spec.rowsVisible h r) ->
  exists s i : Z,
    Spec.wholePixels r h s i
    /\ ~ Spec.rowInWindow (Spec.fit s h r i) h r i.
Proof.
  intros Hr Hh N.
  destruct (Z_le_dec (h / r) 1) as [ A1 | A1 ];
    [ destruct (Z_le_dec 1 (h / r + Spec.rowsVisible h r)) as [ A2 | A2 ] | ].
  - (* the window of the offset scrolled down to *)
    destruct (row_below_window r h Hr Hh) as [W E]. cbv zeta in W, E.
    set (i := Spec.firstRow 0 h r + 1 + Z.abs (Spec.rowsVisible h r)) in *.
    exists 0, i. split; [ exact W | ].
    rewrite E. unfold Spec.rowInWindow.
    replace ((i + 1) * r - (256 - h) + h)
      with ((i + 1) * r + (2 * h - 256)) by lia.
    rewrite Z.div_add_l by lia. lia.
  - (* the window of the offset scrolled up to *)
    exists r, 0. split; [ bounds; lia | ].
    rewrite fit_one_row by lia. unfold Spec.rowInWindow.
    rewrite Z.add_0_l. lia.
  - exists r, 0. split; [ bounds; lia | ].
    rewrite fit_one_row by lia. unfold Spec.rowInWindow.
    rewrite Z.add_0_l. lia.
Qed.

(** The conditions of idempotence are needed: where one fails, some scroll
    offset and row index make a second call scroll again. *)
Lemma fit_idempotent_needs (r h : Z) : 0 < r < 2 ^ 16 -> 0 <= h < 2 ^ 16 ->
  ~ ((r <= 2 * h \/ 2 * r <= 256 - h \/ r = 256 - h)
     /\ (r < 2 * (256 - 2 * h) \/ r = 256 - h)) ->
  exists s i : Z,
    Spec.wholePixels r h s i
    /\ Spec.fit (Spec.fit s h r i) h r i <> Spec.fit s h r i.
Proof.
  intros Hr Hh N.
  assert (C : (2 * h < r /\ 256 - h < 2 * r /\ r <> 256 - h)
              \/ (2 * (256 - 2 * h) <= r /\ r <> 256 - h)) by lia.
  destruct C as [ (C1 & C2 & C3) | (C1 & C2) ].
  - (* scrolled up, then down *)
    exists r, 0. split; [ bounds; lia | ].
    assert (Rho : (2 * h + r) / (2 * r) = 0) by (apply Z.div_small; lia).
    assert (Vis : Spec.rowsVisible h r < 2) by (apply div_lt; lia).
    rewrite fit_one_row by lia. unfold Spec.fit.
    rewrite firstRow_zero, Rho.
    destruct (Z.leb_spec 0 (0 - 1)); [ lia | ].
    destruct (Z.leb_spec (0 - 1 + Spec.rowsVisible h r) 0); lia.
  - (* scrolled down, then up *)
    destruct (row_below_window r h Hr Hh) as [W E]. cbv zeta in W, E.
    set (i := Spec.firstRow 0 h r + 1 + Z.abs (Spec.rowsVisible h r)) in *.
    exists 0, i. split; [ exact W | ].
    rewrite E. unfold Spec.fit. rewrite firstRow_down by lia.
    assert (0 <= (4 * h - 512 + r) / (2 * r)) by (apply div_ge; lia).
    destruct (Z.leb_spec i (i + (4 * h - 512 + r) / (2 * r))); lia.
Qed.

(** Whole numbers below 2^53 are distinct binary64 numbers. *)
Lemma of_Z_inj (a b : Z) : small a -> small b ->
  Js.of_Z a = Js.of_Z b -> a = b.
Proof.
  intros Ha Hb E.
  pose proof (of_Z_leb a b Ha Hb) as L1.
  pose proof (of_Z_leb b a Hb Ha) as L2.
  rewrite E in L1, L2. rewrite (of_Z_leb b b Hb Hb) in L1, L2.
  rewrite Z.leb_refl in L1, L2.
  symmetry in L1, L2. apply Z.leb_le in L1, L2. lia.
Qed.

Lemma fit_small (r h s i : Z) : Spec.wholePixels r h s i ->
  small (Spec.fit s h r i).
Proof. intro W. pose proof (fit_bounds r h s i W). bounds. lia. Qed.

(** Where a condition of the window fails, the method leaves the active row
    outside the window for some scroll offset and row index. *)
Lemma window_conditions_needed {V G : Type}
  (count : Z -> list (@MatOption V) -> G -> Z) (r h : Z) :
  0 < r < 2 ^ 16 -> 0 <= h < 2 ^ 16 ->
  ~ (h / r <= 1 <= h / r + (256 - h) / r
     /\ (2 * h - 256) / r <= 0 <= (2 * h - 256) / r + (256 - h) / r) ->
  exists s i : Z,
    Spec.wholePixels r h s i
    /\ forall (c : @MatSelectSearchComponent V G) (p : Panel)
         (km : KeyManager),
        panel (matSelect c) = Some p ->
        _keyManager (matSelect c) = Some km ->
        getMatOptionHeight c = Js.of_Z r ->
        innerSelectSearch_offsetHeight c = Js.of_Z h ->
        scrollTop p = Js.of_Z s ->
        Spec.activeRowIndex count c km = i ->
        exists S : float,
          adjustScrollTopToFitActiveOptionIntoView count c
          = Normal (write_scrollTop S c)
          /\ ~ Spec.inWindow S (Js.of_Z h) (Js.of_Z r) i.
Proof.
  intros Hr Hh N.
  destruct (fit_window_needs r h Hr Hh N) as (s & i & W & Out).
  exists s, i. split; [ exact W | ].
  intros c p km Hp Hk HR HH Hs Hi.
  exists (Js.of_Z (Spec.fit s h r i)).
  split; [ apply (adjustScrollTop_whole_pixels count r h s i W c p km);
           assumption | ].
  intro In. apply Out.
  apply (inWindow_whole r h (Spec.fit s h r i) i (fit_bounds r h s i W)).
  exact In.
Qed.

(** Where a condition of idempotence fails, a second call scrolls again for
    some scroll offset and row index. *)
Lemma idempotence_conditions_needed {V G : Type}
  (count : Z -> list (@MatOption V) -> G -> Z) (r h : Z) :
  0 < r < 2 ^ 16 -> 0 <= h < 2 ^ 16 ->
  ~ ((r <= 2 * h \/ 2 * r <= 256 - h \/ r = 256 - h)
     /\ (r < 2 * (256 - 2 * h) \/ r = 256 - h)) ->
  exists s i : Z,
    Spec.wholePixels r h s i
    /\ forall (c : @MatSelectSearchComponent V G) (p : Panel)
         (km : KeyManager),
        panel (matSelect c) = Some p ->
        _keyManager (matSelect c) = Some km ->
        getMatOptionHeight c = Js.of_Z r ->
        innerSelectSearch_offsetHeight c = Js.of_Z h ->
        scrollTop p = Js.of_Z s ->
        Spec.activeRowIndex count c km = i ->
        exists S1 S2 : float,
          adjustScrollTopToFitActiveOptionIntoView count c
          = Normal (write_scrollTop S1 c)
          /\ adjustScrollTopToFitActiveOptionIntoView count
               (write_scrollTop S1 c)
             = Normal (write_scrollTop S2 c)
          /\ S1 <> S2.
Proof.
  intros Hr Hh N.
  destruct (fit_idempotent_needs r h Hr Hh N) as (s & i & W & Again).
  exists s, i. split; [ exact W | ].
  intros c p km Hp Hk HR HH Hs Hi.
  pose proof (fit_bounds r h s i W) as W1.
  exists (Js.of_Z (Spec.fit s h r i)),
         (Js.of_Z (Spec.fit (Spec.fit s h r i) h r i)).
  split; [ apply (adjustScrollTop_whole_pixels count r h s i W c p km);
           assumption | ].
  split.
  - rewrite (adjustScrollTop_whole_pixels count r h (Spec.fit s h r i) i W1
               (write_scrollTop (Js.of_Z (Spec.fit s h r i)) c)
               (mkPanel (Js.of_Z (Spec.fit s h r i))) km
               eq_refl Hk HR HH eq_refl Hi).
    rewrite write_scrollTop_twice. reflexivity.
  - intro E. apply Again. symmetry.
    apply of_Z_inj; [ apply fit_small; exact W
                    | apply fit_small; exact W1 | exact E ].
Qed.


(** Nor does it hold of fractional measures under a header between one and
    two rows high: rows of the height next above 40 (0x1.4000000000001p+5)
    under a header of 80, row 6 active at scroll offset 400.  The method
    writes the product 6 * R rounded to binary64, and the window of that
    offset starts at row 7. *)
Example window_fails_on_fractional_rows :
  let R := 0x1.4000000000001p+5%float in
  let c := Samples.component (Samples.select 400 (Samples.rows 12 R) 6) 80 in
  (R <=? 80)%float = true /\ (80 <? 2 * R)%float = true
  /\ (R <=? 256 - 80)%float = true
  /\ adjustScrollTopToFitActiveOptionIntoView Samples.noLabels c
     = Normal (write_scrollTop (6 * R) c)
  /\ (Math_floor ((6 * R + 80) / R) - 1)%float = 7%float
  /\ ~ Spec.inWindow (6 * R) 80 R 6.
Proof.
  cbv zeta.
  split; [ vm_compute; reflexivity | ].
  split; [ vm_compute; reflexivity | ].
  split; [ vm_compute; reflexivity | ].
  split; [ vm_compute; reflexivity | ].
  split; [ vm_compute; reflexivity | ].
  unfold Spec.inWindow. intros [H _]. vm_compute in H. discriminate H.
Qed.




(** Nor is the method idempotent on fractional measures: rows of the height
    next below 112 (0x1.bffffffffffffp+6) under a header of 100, row 1 active
    at scroll offset 0.  The first call writes 2 * R - 156 and the second,
    which rounds the first visible row of that offset up to 1, writes
    1 * R. *)
Example second_call_on_fractional_rows :
  let R := 0x1.bffffffffffffp+6%float in
  let c := Samples.component (Samples.select 0 (Samples.rows 12 R) 1) 100 in
  let c1 := write_scrollTop (2 * R - 156) c in
  adjustScrollTopToFitActiveOptionIntoView Samples.noLabels c = Normal c1
  /\ adjustScrollTopToFitActiveOptionIntoView Samples.noLabels c1
     = Normal (write_scrollTop R c)
  /\ (2 * R - 156 <? R)%float = true.
Proof. cbv zeta. repeat split; vm_compute; reflexivity. Qed.




(** ** Multi-select restoration *)

Section Restoration.

Context {V : Type}.
Variable cmp : V -> V -> bool.
Variable optionValues : list V.

Lemma some_equal_app (l1 l2 : list V) (x : V) :
  some_equal cmp (l1 ++ l2) x
  = some_equal cmp l1 x || some_equal cmp l2 x.
Proof. unfold some_equal. apply existsb_app. Qed.

(** The loop of the subscriber appends the values of [Spec.restored], and
    its flag tells whether there is one. *)
Lemma restore_loop_restored (previous current : list V) (flag : bool) :
  fold_left (restore_step cmp optionValues) previous (current, flag)
  = (current ++ Spec.restored cmp optionValues current previous,
     flag || negb (Spec.is_nil
                     (Spec.restored cmp optionValues current previous))).
Proof.
  revert current flag.
  induction previous as [ | p ps IH ]; intros current flag.
  - simpl. rewrite app_nil_r, orb_false_r. reflexivity.
  - simpl fold_left. unfold restore_step at 2. simpl fst.
    simpl Spec.restored. unfold Spec.missing.
    destruct (negb (some_equal cmp current p)
              && negb (some_equal cmp optionValues p)).
    + rewrite IH. simpl. rewrite <- app_assoc, orb_true_r. reflexivity.
    + rewrite IH. reflexivity.
Qed.

(** A value that is missing from a longer selection is missing from a
    shorter one. *)
Lemma missing_app (current more : list V) (x : V) :
  Spec.missing cmp (current ++ more) optionValues x
  = Spec.missing cmp current optionValues x
    && negb (some_equal cmp more x).
Proof.
  unfold Spec.missing. rewrite some_equal_app.
  destruct (some_equal cmp current x), (some_equal cmp more x),
           (some_equal cmp optionValues x); reflexivity.
Qed.

(** Only previous values that are missing are restored. *)
Lemma restored_sound (previous current : list V) (x : V) :
  In x (Spec.restored cmp optionValues current previous) ->
  In x previous /\ Spec.missing cmp current optionValues x = true.
Proof.
  revert current.
  induction previous as [ | p ps IH ]; intros current H; simpl in H.
  - contradiction.
  - destruct (Spec.missing cmp current optionValues p) eqn:E.
    + destruct H as [ -> | H ].
      * split; [ left; reflexivity | exact E ].
      * apply IH in H. destruct H as [H1 H2].
        rewrite missing_app in H2. apply andb_true_iff in H2.
        split; [ right; exact H1 | apply H2 ].
    + apply IH in H. destruct H as [H1 H2].
      split; [ right; exact H1 | exact H2 ].
Qed.

(** Every previous value that is missing is restored, or equals, by the
    comparison function, a value restored before it. *)
Lemma restored_complete (previous current : list V) (x : V) :
  In x previous ->
  Spec.missing cmp current optionValues x = true ->
  In x (Spec.restored cmp optionValues current previous)
  \/ some_equal cmp (Spec.restored cmp optionValues current previous) x
     = true.
Proof.
  revert current.
  induction previous as [ | p ps IH ]; intros current Hin Hm.
  - contradiction.
  - simpl. destruct Hin as [ -> | Hin ].
    + rewrite Hm. left. left. reflexivity.
    + destruct (Spec.missing cmp current optionValues p) eqn:E.
      * destruct (cmp p x) eqn:Epx.
        -- right. simpl. rewrite Epx. reflexivity.
        -- assert (Hm' : Spec.missing cmp (current ++ [p]) optionValues x
                         = true).
           { rewrite missing_app, Hm. simpl. rewrite Epx. reflexivity. }
           destruct (IH _ Hin Hm') as [H | H].
           ++ left. right. exact H.
           ++ right. simpl. rewrite H. apply orb_true_r.
      * apply IH; assumption.
Qed.

(** Without two previous values that the comparison function takes for
    equal, the restored values are the missing ones, all of them. *)
Lemma restored_filter (previous current : list V) :
  ForallOrdPairs (fun x y => cmp x y = false) previous ->
  Spec.restored cmp optionValues current previous
  = filter (Spec.missing cmp current optionValues) previous.
Proof.
  intro Hd. revert current.
  induction Hd as [ | p ps Hp Hps IH ]; intro current.
  - reflexivity.
  - simpl. destruct (Spec.missing cmp current optionValues p).
    + f_equal. rewrite IH. apply filter_ext_in.
      intros q Hq. rewrite missing_app. simpl.
      rewrite Forall_forall in Hp. rewrite (Hp q Hq).
      rewrite andb_true_r. reflexivity.
    + apply IH.
Qed.

End Restoration.

(** The subscriber while filtering, over an array of previous values. *)
Lemma selectionChanged_filtering {V G : Type}
  (c : @MatSelectSearchComponent V G) (current : Selection)
  (previous : list V) :
  multiple (matSelect c) = true ->
  alwaysRestoreSelectedOptionsMulti c = true ->
  truthy (_formControl_value c) = true ->
  previousSelectedValues c = Arr previous ->
  let R := Spec.restored (compareWith (matSelect c))
             (map value (options (matSelect c)))
             (Spec.values current) previous in
  selectionChanged current c
  = let c1 := if isArray current
              then set_matSelect
                     (set_ngControl (Some (Arr (Spec.values current ++ R)))
                        (matSelect c)) c
              else c in
    let c2 := set_previousSelectedValues (Arr (Spec.values current ++ R)) c1 in
    if Spec.is_nil R then c2
    else _onChange (Arr (Spec.values current ++ R)) c2.
Proof.
  intros Hm Hf Ht Hp R.
  unfold selectionChanged. rewrite Hm, Hf, Ht, Hp. cbn [negb].
  unfold restore_loop.
  rewrite (restore_loop_restored (compareWith (matSelect c))
             (map value (options (matSelect c)))).
  change (match current with
          | Arr l => l
          | _ => []
          end) with (Spec.values current).
  fold R. cbn [orb]. destruct (Spec.is_nil R); reflexivity.
Qed.

(** The subscriber while filtering, the previous selection not an array. *)
Lemma selectionChanged_no_previous {V G : Type}
  (c : @MatSelectSearchComponent V G) (current : Selection) :
  isArray (previousSelectedValues c) = false ->
  selectionChanged current c = set_previousSelectedValues current c.
Proof.
  intro Hp. unfold selectionChanged.
  destruct (negb (multiple (matSelect c))); [ reflexivity | ].
  destruct (negb (alwaysRestoreSelectedOptionsMulti c)); [ reflexivity | ].
  destruct (previousSelectedValues c); try discriminate;
    destruct (truthy (_formControl_value c)); reflexivity.
Qed.

(** C3. In multi-select mode, with the restoration flag and a non-empty
    filter text, a selection change leaves the current selection followed by
    restored values R: each of them is a previous value that is neither in
    the current selection nor among the values of the rendered options, and
    each such previous value is in R (or equal, by [compareWith], to a value
    of R); membership is decided by [matSelect.compareWith].  If R is not
    empty the augmented selection is written back with [matSelect._onChange].
    When no two previous values are equal by [compareWith], R is the list of
    all such previous values: for previous {a, b, c}, current {a} and
    rendered {a}, {a, b, c} is written back. *)
Theorem selectionChanged_restores {V G : Type}
  (c : @MatSelectSearchComponent V G) (current : Selection) :
  multiple (matSelect c) = true ->
  alwaysRestoreSelectedOptionsMulti c = true ->
  truthy (_formControl_value c) = true ->
  let previous := Spec.values (previousSelectedValues c) in
  let cmp := compareWith (matSelect c) in
  let optionValues := map value (options (matSelect c)) in
  let missing := Spec.missing cmp (Spec.values current) optionValues in
  exists R : list V,
    previousSelectedValues (selectionChanged current c)
    = (if isArray (previousSelectedValues c)
       then Arr (Spec.values current ++ R)
       else current)
    /\ _onChange_calls (matSelect (selectionChanged current c))
       = _onChange_calls (matSelect c)
         ++ (if Spec.is_nil R then [] else [Arr (Spec.values current ++ R)])
    /\ (forall x : V, In x R -> In x previous /\ missing x = true)
    /\ (forall x : V, In x previous -> missing x = true ->
          In x R \/ some_equal cmp R x = true)
    /\ (ForallOrdPairs (fun x y => cmp x y = false) previous ->
        R = filter missing previous).
Proof.
  intros Hm Hf Ht previous cmp optionValues missing.
  exists (Spec.restored cmp optionValues (Spec.values current) previous).
  set (R := Spec.restored cmp optionValues (Spec.values current) previous).
  assert (Hstate :
    previousSelectedValues (selectionChanged current c)
    = (if isArray (previousSelectedValues c)
       then Arr (Spec.values current ++ R)
       else current)
    /\ _onChange_calls (matSelect (selectionChanged current c))
       = _onChange_calls (matSelect c)
         ++ (if Spec.is_nil R then [] else [Arr (Spec.values current ++ R)])).
  { destruct (previousSelectedValues c) as [ | v | vs ] eqn:Hp.
    - rewrite selectionChanged_no_previous by (rewrite Hp; reflexivity).
      subst R previous. cbn. rewrite app_nil_r. split; reflexivity.
    - rewrite selectionChanged_no_previous by (rewrite Hp; reflexivity).
      subst R previous. cbn. rewrite app_nil_r. split; reflexivity.
    - rewrite (selectionChanged_filtering c current vs Hm Hf Ht Hp).
      cbv zeta. subst previous. cbn [Spec.values] in R.
      fold cmp optionValues. fold R. cbn [isArray].
      destruct (Spec.is_nil R), (isArray current); cbn;
        rewrite ?app_nil_r; split; reflexivity. }
  destruct Hstate as [Hprev Hcalls].
  split; [ exact Hprev | ]. split; [ exact Hcalls | ].
  split; [ | split ].
  - intros x Hx. apply (restored_sound cmp optionValues _ _ _ Hx).
  - intros x Hx Hmx. apply restored_complete; assumption.
  - intro Hd. apply restored_filter. exact Hd.
Qed.

(** previous {a, b, c}, current {a}, rendered {a}: {a, b, c} is written
    back. *)
Lemma selectionChanged_restores_witness :
  _onChange_calls (matSelect (selectionChanged Samples.sel_a Samples.filtering))
  = [Samples.sel_abc].
Proof.
  destruct (selectionChanged_restores Samples.filtering Samples.sel_a
              eq_refl eq_refl eq_refl)
    as (R & _ & Hcalls & _ & _ & HR).
  rewrite Hcalls.
  rewrite HR.
  - reflexivity.
  - repeat constructor.
Defined.

(** Two previous values that [compareWith] takes for equal are restored
    once. *)
Example restored_once :
  _onChange_calls (matSelect (selectionChanged Samples.sel_a Samples.twice))
  = [Samples.sel_ab].
Proof. reflexivity. Qed.

(** With nothing to restore nothing is written back. *)
Example nothing_to_restore :
  _onChange_calls
    (matSelect (selectionChanged Samples.sel_abc Samples.filtering))
  = [].
Proof. reflexivity. Qed.

(** C6. On a selection change in multi-select mode, if the restoration flag
    is disabled or the filter text is empty, the subscriber only stores the
    incoming selection as [previousSelectedValues]: [matSelect._onChange] is
    not called and the select, with the value of its control, is left as it
    is. *)
Theorem selectionChanged_skips {V G : Type}
  (c : @MatSelectSearchComponent V G) (current : Selection) :
  multiple (matSelect c) = true ->
  alwaysRestoreSelectedOptionsMulti c = false
  \/ truthy (_formControl_value c) = false ->
  selectionChanged current c = set_previousSelectedValues current c
  /\ _onChange_calls (matSelect (selectionChanged current c))
     = _onChange_calls (matSelect c)
  /\ matSelect (selectionChanged current c) = matSelect c
  /\ previousSelectedValues (selectionChanged current c) = current
  /\ (ngControl (matSelect c) <> None ->
      ngControl (matSelect (ngControl_valueChanges current c)) = Some current
      /\ _onChange_calls (matSelect (ngControl_valueChanges current c))
         = _onChange_calls (matSelect c)).
Proof.
  intros Hm Hskip.
  assert (E : selectionChanged current c
              = set_previousSelectedValues current c).
  { unfold selectionChanged. rewrite Hm. cbn [negb].
    destruct Hskip as [Hf | Ht].
    - rewrite Hf. reflexivity.
    - rewrite Ht. destruct (alwaysRestoreSelectedOptionsMulti c); reflexivity. }
  split; [ exact E | ].
  rewrite E.
  split; [ reflexivity | ].
  split; [ reflexivity | ].
  split; [ reflexivity | ].
  intro Hc. unfold ngControl_valueChanges.
  destruct (ngControl (matSelect c)) as [ v | ]; [ | congruence ].
  set (c1 := set_matSelect (set_ngControl (Some current) (matSelect c)) c).
  assert (E1 : selectionChanged current c1
               = set_previousSelectedValues current c1).
  { unfold selectionChanged.
    change (multiple (matSelect c1)) with (multiple (matSelect c)).
    change (alwaysRestoreSelectedOptionsMulti c1)
      with (alwaysRestoreSelectedOptionsMulti c).
    change (_formControl_value c1) with (_formControl_value c).
    rewrite Hm. cbn [negb].
    destruct Hskip as [Hf | Ht].
    - rewrite Hf. reflexivity.
    - rewrite Ht. destruct (alwaysRestoreSelectedOptionsMulti c); reflexivity. }
  destruct (valueChangesSubscribed c1); [ rewrite E1 | ]; split; reflexivity.
Qed.

(** The restoration flag disabled, and the filter text empty: the selection
    stays {a}. *)
Lemma selectionChanged_skips_witness :
  selectionChanged Samples.sel_a Samples.flagDisabled
  = set_previousSelectedValues Samples.sel_a Samples.flagDisabled
  /\ selectionChanged Samples.sel_a Samples.filterEmpty
     = set_previousSelectedValues Samples.sel_a Samples.filterEmpty.
Proof.
  split.
  - refine (proj1 (selectionChanged_skips Samples.flagDisabled
                     Samples.sel_a _ _)).
    + reflexivity.
    + left. reflexivity.
  - refine (proj1 (selectionChanged_skips Samples.filterEmpty
                     Samples.sel_a _ _)).
    + reflexivity.
    + right. reflexivity.
Defined.

(** C7. Without a control on the select, [initMultipleHandling] returns
    (it does not throw) after one [console.error] line, written only in
    multi-select mode; it subscribes to nothing, stores no previous
    selection and leaves the select alone, so that no selection is restored
    or written back then or later. *)
Theorem initMultipleHandling_without_control {V G : Type}
  (c : @MatSelectSearchComponent V G) :
  ngControl (matSelect c) = None ->
  exists c' : @MatSelectSearchComponent V G,
    initMultipleHandling c = Normal c'
    /\ c' = (if multiple (matSelect c)
             then set_console (console c ++ [NO_CONTROL_MESSAGE]) c
             else c)
    /\ valueChangesSubscribed c' = valueChangesSubscribed c
    /\ previousSelectedValues c' = previousSelectedValues c
    /\ matSelect c' = matSelect c
    /\ (forall vs : list Selection, Spec.selectionChanges vs c' = c').
Proof.
  intro Hc.
  exists (if multiple (matSelect c)
          then set_console (console c ++ [NO_CONTROL_MESSAGE]) c
          else c).
  unfold initMultipleHandling. rewrite Hc.
  split; [ destruct (multiple (matSelect c)); reflexivity | ].
  split; [ reflexivity | ].
  split; [ destruct (multiple (matSelect c)); reflexivity | ].
  split; [ destruct (multiple (matSelect c)); reflexivity | ].
  split; [ destruct (multiple (matSelect c)); reflexivity | ].
  intro vs. unfold Spec.selectionChanges.
  induction vs as [ | v vs IH ]; [ reflexivity | ].
  simpl fold_left.
  replace (ngControl_valueChanges v
             (if multiple (matSelect c)
              then set_console (console c ++ [NO_CONTROL_MESSAGE]) c
              else c))
    with (if multiple (matSelect c)
          then set_console (console c ++ [NO_CONTROL_MESSAGE]) c
          else c); [ exact IH | ].
  unfold ngControl_valueChanges.
  destruct (multiple (matSelect c)); cbn; rewrite Hc; reflexivity.
Qed.

Lemma initMultipleHandling_without_control_witness :
  exists c' : @MatSelectSearchComponent string unit,
    initMultipleHandling Samples.withoutControl = Normal c'
    /\ console c' = [NO_CONTROL_MESSAGE]
    /\ valueChangesSubscribed c' = false
    /\ _onChange_calls
         (matSelect
            (Spec.selectionChanges [Samples.sel_a; Samples.sel_none] c'))
       = [].
Proof.
  destruct (initMultipleHandling_without_control Samples.withoutControl
              eq_refl)
    as (c' & Hinit & Hc' & Hsub & _ & Hsel & Hlater).
  exists c'.
  split; [ exact Hinit | ].
  split; [ rewrite Hc'; reflexivity | ].
  split; [ rewrite Hsub; reflexivity | ].
  rewrite Hlater, Hsel. reflexivity.
Defined.

(** With a control, the previous selection is stored and the subscriber
    installed. *)
Example initMultipleHandling_with_control :
  initMultipleHandling
    (set_valueChangesSubscribed false Samples.filtering)
  = Normal (set_previousSelectedValues Samples.sel_a Samples.filtering).
Proof. reflexivity. Qed.

(** ** The search field as a value accessor *)

Section ValueAccessor.

Context {V G : Type}.
Implicit Types c : @MatSelectSearchComponent V G.

(** What the pipes of [registerOnChange] do with one emitted value. *)
Lemma pipes_emit (v : Js.text) (fns : list nat) c :
  let c' := fold_left (onChange_pipe v) fns c in
  onChangeFns c' = onChangeFns c
  /\ _formControl_value c' = _formControl_value c
  /\ matSelect c' = matSelect c
  /\ enableClearOnEscapePressed c' = enableClearOnEscapePressed c
  /\ (strict_eq v (_lastExternalInputValue c) = true ->
      onChangeLog c' = onChangeLog c
      /\ _lastExternalInputValue c' = _lastExternalInputValue c)
  /\ (strict_eq v (_lastExternalInputValue c) = false ->
      v <> undefined ->
      onChangeLog c' = onChangeLog c ++ map (fun fn => (fn, v)) fns
      /\ _lastExternalInputValue c'
         = if Spec.is_nil fns then _lastExternalInputValue c
           else undefined).
Proof.
  assert (Hundef : v <> undefined -> strict_eq v undefined = false).
  { intro Hv. unfold strict_eq.
    destruct (text_eq_dec v undefined); [ contradiction | reflexivity ]. }
  revert c. induction fns as [ | fn fns IH ]; intro c; cbv zeta.
  - simpl.
    split; [ reflexivity | ]. split; [ reflexivity | ].
    split; [ reflexivity | ]. split; [ reflexivity | ].
    split; [ intros _; split; reflexivity | ].
    intros _ _. rewrite app_nil_r. split; reflexivity.
  - simpl fold_left.
    specialize (IH (onChange_pipe v c fn)). cbv zeta in IH.
    destruct IH as (Hfns & Hval & Hsel & Hesc & Hsame & Hother).
    set (c1 := onChange_pipe v c fn) in *.
    destruct (strict_eq v (_lastExternalInputValue c)) eqn:E.
    + assert (E1 : c1 = c) by (unfold c1, onChange_pipe; rewrite E; reflexivity).
      rewrite E1 in *.
      split; [ exact Hfns | ]. split; [ exact Hval | ].
      split; [ exact Hsel | ]. split; [ exact Hesc | ].
      split; [ intros _; apply Hsame; exact E | discriminate ].
    + assert (E1 : c1 = set_onChangeLog (onChangeLog c ++ [(fn, v)])
                         (set_lastExternalInputValue undefined c))
        by (unfold c1, onChange_pipe; rewrite E; reflexivity).
      rewrite E1 in *. cbn in Hfns, Hval, Hsel, Hesc, Hsame, Hother.
      split; [ exact Hfns | ]. split; [ exact Hval | ].
      split; [ exact Hsel | ]. split; [ exact Hesc | ].
      split; [ discriminate | ].
      intros _ Hv.
      destruct (Hother (Hundef Hv) Hv) as [Hlog Hlast].
      split.
      * rewrite Hlog, <- app_assoc. reflexivity.
      * rewrite Hlast. destruct fns; reflexivity.
Qed.

Lemma strict_eq_refl (v : Js.text) : strict_eq v v = true.
Proof.
  unfold strict_eq. destruct (text_eq_dec v v); [ reflexivity | congruence ].
Qed.

Lemma strict_eq_true (v w : Js.text) : strict_eq v w = true <-> v = w.
Proof.
  unfold strict_eq. destruct (text_eq_dec v w); split; congruence.
Qed.


(** A user edit reaches the callbacks exactly when it differs from the
    stored external value, which it then clears. *)
Lemma userInput_passes (s : string) c :
  onChangeLog (userInput s c)
  = onChangeLog c
    ++ (if strict_eq (str s) (_lastExternalInputValue c) then []
        else Spec.calls_of c s)
  /\ _lastExternalInputValue (userInput s c)
     = (if strict_eq (str s) (_lastExternalInputValue c)
        then _lastExternalInputValue c
        else if Spec.is_nil (onChangeFns c) then _lastExternalInputValue c
             else undefined)
  /\ onChangeFns (userInput s c) = onChangeFns c.
Proof.
  unfold userInput, _formControl_setValue.
  set (c1 := set_formControl_value (str s) c).
  destruct (pipes_emit (str s) (onChangeFns c1) c1)
    as (Hfns & _ & _ & _ & Hsame & Hother).
  change (_lastExternalInputValue c1) with (_lastExternalInputValue c)
    in Hsame, Hother.
  change (onChangeLog c1) with (onChangeLog c) in Hsame, Hother.
  change (onChangeFns c1) with (onChangeFns c) in *.
  destruct (strict_eq (str s) (_lastExternalInputValue c)).
  - destruct (Hsame eq_refl) as [Hlog Hlast].
    rewrite app_nil_r. repeat split; assumption.
  - destruct (Hother eq_refl) as [Hlog Hlast]; [ discriminate | ].
    repeat split; assumption.
Qed.



End ValueAccessor.

(** After a write of "a" the edit "ab" differs from the stored external
    value: it is passed on and clears the stored value, so that the edit
    back to "a", which differs from the stored [undefined], is passed on
    too. *)
Example edit_back_log :
  onChangeLog
    (Spec.userInputs [Samples.ab; Samples.a]
       (writeValue (str Samples.a) Samples.field))
  = [(0%nat, str Samples.ab); (0%nat, str Samples.a)].
Proof. reflexivity. Qed.



(** ** The "no entries found" indicator *)

(** C9. The indicator is [true] exactly when the label is non-empty, the
    search text is non-empty and the number of rendered options equals the
    offset of [getOptionsLengthOffset], which is 1 inside a mat-option and 0
    otherwise; in every other case its value is falsy. *)
Theorem showNoEntriesFound_exactly {V G : Type}
  (c : @MatSelectSearchComponent V G) (value0 : Js.text)
  (optionsLength0 : Z) :
  (_showNoEntriesFound c value0 optionsLength0 = VBool true
   <-> truthy (noEntriesFoundLabel c) = true
       /\ truthy value0 = true
       /\ optionsLength0 = getOptionsLengthOffset c)
  /\ (JsValue_truthy (_showNoEntriesFound c value0 optionsLength0) = true
      <-> _showNoEntriesFound c value0 optionsLength0 = VBool true)
  /\ getOptionsLengthOffset c
     = (match matOption c with Some _ => 1 | None => 0 end).
Proof.
  unfold _showNoEntriesFound.
  split; [ | split; [ | reflexivity ] ].
  - destruct (truthy (noEntriesFoundLabel c)) eqn:El; cbn [negb].
    + destruct (truthy value0) eqn:Ev; cbn [negb].
      * split.
        -- intro H. injection H as H. apply Z.eqb_eq in H. auto.
        -- intros (_ & _ & H). apply Z.eqb_eq in H. rewrite H. reflexivity.
      * split; [ discriminate | intros (_ & H & _); discriminate ].
    + split; [ discriminate | intros (H & _); discriminate ].
  - destruct (truthy (noEntriesFoundLabel c)) eqn:El; cbn [negb].
    + destruct (truthy value0) eqn:Ev; cbn [negb].
      * cbn. split; intro H; [ rewrite H; reflexivity | ].
        injection H as H. exact H.
      * cbn. rewrite Ev. split; discriminate.
    + cbn. rewrite El. split; discriminate.
Qed.

(** Inside a mat-option, a search text and the search option alone: the
    indicator shows; one more option, and it does not. *)
Example showNoEntriesFound_samples :
  _showNoEntriesFound Samples.typed (str Samples.ab) 1 = VBool true
  /\ _showNoEntriesFound Samples.typed (str Samples.ab) 2 = VBool false
  /\ _showNoEntriesFound Samples.scenario (str Samples.ab) 0 = VBool true
  /\ JsValue_truthy (_showNoEntriesFound Samples.typed null 1) = false.
Proof. repeat split. Qed.

(** ** The escape key *)

Lemma focus_keeps_value {V G : Type} (c : @MatSelectSearchComponent V G) :
  _formControl_value (_focus c) = _formControl_value c.
Proof. unfold _focus. destruct (panel (matSelect c)); reflexivity. Qed.

Lemma reset_clears {V G : Type} (focus : bool)
  (c : @MatSelectSearchComponent V G) :
  _formControl_value (_reset focus c) = str EmptyString.
Proof.
  unfold _reset, _formControl_setValue.
  set (c1 := set_formControl_value (str EmptyString) c).
  destruct (pipes_emit (str EmptyString) (onChangeFns c1) c1)
    as (_ & Hval & _).
  destruct focus; [ rewrite focus_keeps_value | ]; exact Hval.
Qed.

(** C10. On a keydown of the escape key: if [enableClearOnEscapePressed] is
    true and the search value is non-empty, the search text is reset to the
    empty string and the propagation of the event is stopped; if the flag is
    false or the search value is empty, the component is left as it is and
    the event is what the first clause of the handler made of it: the escape
    clause does not stop it, and an event with the key "Escape" leaves the
    handler as it came. *)
Theorem handleKeydown_escape {V G : Type}
  (c : @MatSelectSearchComponent V G) (event : KeyboardEvent) :
  keyCode event = ESCAPE ->
  (enableClearOnEscapePressed c = true -> truthy (get_value c) = true ->
   _formControl_value (snd (_handleKeydown event c)) = str EmptyString
   /\ propagationStopped (fst (_handleKeydown event c)) = true)
  /\ (enableClearOnEscapePressed c = false \/ truthy (get_value c) = false ->
      snd (_handleKeydown event c) = c
      /\ fst (_handleKeydown event c)
         = (if stops_alphanumeric event c then stopPropagation event
            else event)
      /\ (key event = Some Samples.Escape ->
          fst (_handleKeydown event c) = event)).
Proof.
  intro Hk.
  assert (Henter : (keyCode event =? ENTER) = false)
    by (rewrite Hk; reflexivity).
  assert (Hesc : (keyCode event =? ESCAPE) = true)
    by (rewrite Hk; reflexivity).
  unfold _handleKeydown.
  rewrite Henter, andb_false_r, Hesc.
  split.
  - intros Hflag Hvalue. rewrite Hflag, Hvalue. cbn [andb fst snd].
    split; [ apply reset_clears | reflexivity ].
  - intro Hskip.
    assert (E : enableClearOnEscapePressed c && true && truthy (get_value c)
                = false).
    { destruct Hskip as [H | H]; rewrite H;
        [ reflexivity | apply andb_false_r ]. }
    rewrite E. cbn [fst snd].
    split; [ reflexivity | ]. split; [ reflexivity | ].
    intro Hkey.
    replace (stops_alphanumeric event c) with false; [ reflexivity | ].
    unfold stops_alphanumeric, key_is_one_char.
    rewrite Hkey, Hk. cbn. rewrite andb_false_r. reflexivity.
Qed.

Lemma handleKeydown_escape_witness :
  (_formControl_value (snd (_handleKeydown Samples.escapeKey Samples.typed))
   = str EmptyString
   /\ propagationStopped (fst (_handleKeydown Samples.escapeKey Samples.typed))
      = true)
  /\ (snd (_handleKeydown Samples.escapeKey Samples.cleared) = Samples.cleared
      /\ fst (_handleKeydown Samples.escapeKey Samples.cleared)
         = Samples.escapeKey).
Proof.
  split.
  - refine (proj1 (handleKeydown_escape Samples.typed Samples.escapeKey _)
              _ _); reflexivity.
  - destruct (proj2 (handleKeydown_escape Samples.cleared Samples.escapeKey
                       eq_refl) (or_intror eq_refl))
      as (Hc & _ & Hevent).
    split; [ exact Hc | apply Hevent; reflexivity ].
Defined.

(** Escape over a typed text also reaches the registered callback, as a user
    edit does, and focuses the field. *)
Example escape_clears_and_notifies :
  onChangeLog (snd (_handleKeydown Samples.escapeKey Samples.typed))
  = [(0%nat, str EmptyString)]
  /\ focused (snd (_handleKeydown Samples.escapeKey Samples.typed)) = true.
Proof. split; reflexivity. Qed.

(** ** Viewport-fit scrolling: what the method leaves alone, and how it fails *)

(** X1. Whenever the method returns, the component is as it was, or as it
    was but for the scroll offset written to the panel it has: the options,
    the key manager, the search text and the callbacks are never touched. *)
Theorem adjustScrollTop_writes_scrollTop_only {V G : Type}
  (count : Z -> list (@MatOption V) -> G -> Z)
  (c c' : @MatSelectSearchComponent V G) :
  adjustScrollTopToFitActiveOptionIntoView count c = Normal c' ->
  c' = c
  \/ exists (S : float) (p : Panel),
       panel (matSelect c) = Some p /\ c' = write_scrollTop S c.
Proof.
  unfold adjustScrollTopToFitActiveOptionIntoView.
  destruct (panel (matSelect c)) as [ p | ] eqn:Hp;
    [ | intro H; injection H as <-; left; reflexivity ].
  destruct (0 <? Z.of_nat (List.length (options (matSelect c))));
    [ | intro H; injection H as <-; left; reflexivity ].
  destruct (_keyManager (matSelect c)) as [ km | ]; cbn [deref Js.bind];
    [ | discriminate ].
  match goal with
  | |- (if ?b then _ else _) = _ -> _ => destruct b
  end.
  - intro H; injection H as <-. right. eexists. exists p.
    split; reflexivity.
  - match goal with
    | |- (if ?b then _ else _) = _ -> _ => destruct b
    end; intro H; injection H as <-.
    + right. eexists. exists p. split; reflexivity.
    + left. reflexivity.
Qed.

Lemma adjustScrollTop_writes_scrollTop_only_witness :
  write_scrollTop 120 Samples.scenario = Samples.scenario
  \/ exists (S : float) (p : Panel),
       panel (matSelect Samples.scenario) = Some p
       /\ write_scrollTop 120 Samples.scenario
          = write_scrollTop S Samples.scenario.
Proof.
  apply (adjustScrollTop_writes_scrollTop_only Samples.noLabels).
  vm_compute. reflexivity.
Defined.



(** ** Keys: what reaches the select *)

Lemma handleKeydown_event {V G : Type} (c : @MatSelectSearchComponent V G)
  (event : KeyboardEvent) :
  let event1 := if stops_alphanumeric event c then stopPropagation event
                else event in
  fst (_handleKeydown event c) = event1
  \/ fst (_handleKeydown event c) = stopPropagation event1.
Proof.
  cbv zeta. unfold _handleKeydown.
  match goal with
  | |- context [if ?b then (stopPropagation _, _) else _] => destruct b
  end; [ right | left ]; reflexivity.
Qed.

(** X3. A key that types a character (a key name of one character, a letter,
    a digit or the space bar) never reaches the select: the propagation of
    its keydown is stopped. *)
Theorem handleKeydown_stops_typing {V G : Type}
  (c : @MatSelectSearchComponent V G) (event : KeyboardEvent) :
  (exists s : string, key event = Some s /\ String.length s = 1%nat)
  \/ A <= keyCode event <= Z_
  \/ ZERO <= keyCode event <= NINE
  \/ keyCode event = SPACE ->
  propagationStopped (fst (_handleKeydown event c)) = true.
Proof.
  intro H.
  assert (Hs : stops_alphanumeric event c = true).
  { unfold stops_alphanumeric.
    destruct H as [ (s & Hk & Hl) | [ [H1 H2] | [ [H1 H2] | H ] ] ].
    - unfold key_is_one_char. rewrite Hk, Hl. reflexivity.
    - replace (keyCode event >=? A) with true
        by (symmetry; apply Z.geb_le; lia).
      replace (keyCode event <=? Z_) with true
        by (symmetry; apply Z.leb_le; lia).
      rewrite orb_true_r. reflexivity.
    - replace (keyCode event >=? ZERO) with true
        by (symmetry; apply Z.geb_le; lia).
      replace (keyCode event <=? NINE) with true
        by (symmetry; apply Z.leb_le; lia).
      cbn [andb]. rewrite orb_true_r. reflexivity.
    - rewrite H. cbn [Z.eqb SPACE Pos.eqb]. rewrite orb_true_r. reflexivity. }
  pose proof (handleKeydown_event c event) as E. cbv zeta in E.
  rewrite Hs in E. destruct E as [E | E]; rewrite E; reflexivity.
Qed.

Lemma handleKeydown_stops_typing_witness :
  propagationStopped
    (fst (_handleKeydown MoreSamples.letterA Samples.typed)) = true.
Proof.
  apply handleKeydown_stops_typing.
  left. eexists. split; reflexivity.
Defined.

(** X4. The keys the select navigates with pass: the keydown of an arrow up,
    an arrow down or an enter key, its key name not of one character, leaves
    the handler as it came, and the search text, the callbacks and the select
    are as before. *)
Theorem handleKeydown_passes_navigation {V G : Type}
  (c : @MatSelectSearchComponent V G) (event : KeyboardEvent) :
  (forall s : string, key event = Some s -> String.length s <> 1%nat) ->
  keyCode event = UP_ARROW \/ keyCode event = DOWN_ARROW
  \/ keyCode event = ENTER ->
  fst (_handleKeydown event c) = event
  /\ _formControl_value (snd (_handleKeydown event c)) = _formControl_value c
  /\ onChangeLog (snd (_handleKeydown event c)) = onChangeLog c
  /\ matSelect (snd (_handleKeydown event c)) = matSelect c.
Proof.
  intros Hkey Hcode.
  assert (H1 : key_is_one_char event = false).
  { unfold key_is_one_char. destruct (key event) as [ s | ]; [ | reflexivity ].
    apply Nat.eqb_neq. apply Hkey. reflexivity. }
  assert (Hs : stops_alphanumeric event c = false).
  { unfold stops_alphanumeric. rewrite H1.
    destruct Hcode as [ H | [ H | H ] ]; rewrite H; cbn;
      apply andb_false_r. }
  assert (Hesc : (keyCode event =? ESCAPE) = false)
    by (destruct Hcode as [ H | [ H | H ] ]; rewrite H; reflexivity).
  unfold _handleKeydown. rewrite Hs, Hesc, andb_false_r. cbn [andb fst snd].
  split; [ reflexivity | ].
  destruct (multiple (matSelect c) && key_truthy event
            && (keyCode event =? ENTER)); repeat split.
Qed.

Lemma handleKeydown_passes_navigation_witness :
  fst (_handleKeydown MoreSamples.arrowDown Samples.typed)
  = MoreSamples.arrowDown.
Proof.
  refine (proj1 (handleKeydown_passes_navigation Samples.typed
                   MoreSamples.arrowDown _ _)).
  - intros s H. injection H as <-. discriminate.
  - right. left. reflexivity.
Defined.

(** X5. The keydown of a home or an end key is stopped exactly when
    [preventHomeEndKeyPropagation] is set (or it was stopped before); the
    component is left as it is. *)
Theorem handleKeydown_home_end {V G : Type}
  (c : @MatSelectSearchComponent V G) (event : KeyboardEvent) :
  (forall s : string, key event = Some s -> String.length s <> 1%nat) ->
  keyCode event = HOME \/ keyCode event = END ->
  propagationStopped (fst (_handleKeydown event c))
  = propagationStopped event || preventHomeEndKeyPropagation c
  /\ snd (_handleKeydown event c) = c.
Proof.
  intros Hkey Hcode.
  assert (H1 : key_is_one_char event = false).
  { unfold key_is_one_char. destruct (key event) as [ s | ]; [ | reflexivity ].
    apply Nat.eqb_neq. apply Hkey. reflexivity. }
  assert (Hs : stops_alphanumeric event c = preventHomeEndKeyPropagation c).
  { unfold stops_alphanumeric. rewrite H1.
    destruct Hcode as [ H | H ]; rewrite H; cbn;
      destruct (preventHomeEndKeyPropagation c); reflexivity. }
  assert (Hesc : (keyCode event =? ESCAPE) = false)
    by (destruct Hcode as [ H | H ]; rewrite H; reflexivity).
  assert (Hent : (keyCode event =? ENTER) = false)
    by (destruct Hcode as [ H | H ]; rewrite H; reflexivity).
  unfold _handleKeydown.
  rewrite Hs, Hesc, Hent, !andb_false_r. cbn [andb fst snd].
  split; [ | reflexivity ].
  destruct (preventHomeEndKeyPropagation c); cbn;
    [ rewrite orb_true_r | rewrite orb_false_r ]; reflexivity.
Qed.

Lemma handleKeydown_home_end_witness :
  propagationStopped (fst (_handleKeydown MoreSamples.homeKey Samples.typed))
  = false
  /\ snd (_handleKeydown MoreSamples.homeKey Samples.typed) = Samples.typed.
Proof.
  refine (handleKeydown_home_end Samples.typed MoreSamples.homeKey _ _).
  - intros s H. injection H as <-. discriminate.
  - left. reflexivity.
Defined.

(** X6. The keydown handler never takes a stop back and keeps the key of the
    event; the search text, the stored external value, the calls of the
    callbacks and the select change only through the escape clause: for a key
    code other than escape they are as before. *)
Theorem handleKeydown_keeps {V G : Type}
  (c : @MatSelectSearchComponent V G) (event : KeyboardEvent) :
  key (fst (_handleKeydown event c)) = key event
  /\ keyCode (fst (_handleKeydown event c)) = keyCode event
  /\ (propagationStopped event = true ->
      propagationStopped (fst (_handleKeydown event c)) = true)
  /\ (keyCode event <> ESCAPE ->
      _formControl_value (snd (_handleKeydown event c)) = _formControl_value c
      /\ _lastExternalInputValue (snd (_handleKeydown event c))
         = _lastExternalInputValue c
      /\ onChangeLog (snd (_handleKeydown event c)) = onChangeLog c
      /\ matSelect (snd (_handleKeydown event c)) = matSelect c).
Proof.
  pose proof (handleKeydown_event c event) as E. cbv zeta in E.
  split; [ | split; [ | split ] ].
  - destruct E as [E | E]; rewrite E;
      destruct (stops_alphanumeric event c); reflexivity.
  - destruct E as [E | E]; rewrite E;
      destruct (stops_alphanumeric event c); reflexivity.
  - intro H. destruct E as [E | E]; rewrite E;
      destruct (stops_alphanumeric event c); cbn; try reflexivity; exact H.
  - intro Hk. apply Z.eqb_neq in Hk.
    unfold _handleKeydown. rewrite Hk, andb_false_r. cbn [andb snd].
    destruct (multiple (matSelect c) && key_truthy event
              && (keyCode event =? ENTER)); repeat split.
Qed.

Lemma handleKeydown_keeps_witness :
  propagationStopped
    (fst (_handleKeydown (stopPropagation MoreSamples.arrowDown)
            Samples.typed)) = true
  /\ _formControl_value
       (snd (_handleKeydown MoreSamples.letterA Samples.typed))
     = _formControl_value Samples.typed.
Proof.
  split.
  - refine (proj1 (proj2 (proj2
      (handleKeydown_keeps Samples.typed
         (stopPropagation MoreSamples.arrowDown)))) _).
    reflexivity.
  - refine (proj1 (proj2 (proj2 (proj2
      (handleKeydown_keeps Samples.typed MoreSamples.letterA))) _)).
    discriminate.
Defined.

(** ** The value accessor: writes, callbacks and clearing *)

(** An emitted value that equals the stored external value passes no pipe. *)
Lemma pipes_suppressed {V G : Type} (v : Js.text) (fns : list nat)
  (c : @MatSelectSearchComponent V G) :
  strict_eq v (_lastExternalInputValue c) = true ->
  fold_left (onChange_pipe v) fns c = c.
Proof.
  intro E. induction fns as [ | fn fns IH ]; [ reflexivity | ].
  simpl. unfold onChange_pipe at 2. rewrite E. exact IH.
Qed.

Lemma writeValue_state {V G : Type} (v : Js.text)
  (c : @MatSelectSearchComponent V G) :
  writeValue v c = set_formControl_value v (set_lastExternalInputValue v c).
Proof.
  unfold writeValue, _formControl_setValue.
  apply pipes_suppressed. apply strict_eq_refl.
Qed.

(** X7. Only the most recent external write is remembered: a write after a
    write leaves the component as the second write alone would, no callback
    is called by either, and the next user edit is passed on exactly when it
    differs from the value written last. *)
Theorem writeValue_last_wins {V G : Type}
  (c : @MatSelectSearchComponent V G) (v w : Js.text) :
  writeValue w (writeValue v c) = writeValue w c
  /\ onChangeLog (writeValue w (writeValue v c)) = onChangeLog c
  /\ (forall s : string,
        onChangeLog (userInput s (writeValue w (writeValue v c)))
        = onChangeLog c
          ++ (if strict_eq (str s) w then [] else Spec.calls_of c s)).
Proof.
  assert (E : writeValue w (writeValue v c) = writeValue w c)
    by (rewrite !writeValue_state; reflexivity).
  split; [ exact E | ].
  rewrite E, writeValue_state.
  split; [ reflexivity | ].
  intro s.
  destruct (userInput_passes s
              (set_formControl_value w (set_lastExternalInputValue w c)))
    as (Hlog & _).
  exact Hlog.
Qed.

(** X8. With no callback registered nothing is recorded and the stored
    external value is never cleared, whatever the user types. *)
Theorem userInputs_unobserved {V G : Type}
  (c : @MatSelectSearchComponent V G) (edits : list string) :
  onChangeFns c = [] ->
  onChangeLog (Spec.userInputs edits c) = onChangeLog c
  /\ _lastExternalInputValue (Spec.userInputs edits c)
     = _lastExternalInputValue c
  /\ onChangeFns (Spec.userInputs edits c) = [].
Proof.
  revert c. induction edits as [ | s edits IH ]; intros c Hfns.
  - repeat split. exact Hfns.
  - unfold Spec.userInputs. simpl fold_left.
    fold (Spec.userInputs edits (userInput s c)).
    destruct (userInput_passes s c) as (Hlog & Hlast & Hsame).
    assert (Hfns' : onChangeFns (userInput s c) = [])
      by (rewrite Hsame; exact Hfns).
    destruct (IH (userInput s c) Hfns') as (IH1 & IH2 & IH3).
    rewrite IH1, IH2, Hlog, Hlast.
    unfold Spec.calls_of. rewrite Hfns. cbn.
    repeat split.
    + destruct (strict_eq (str s) (_lastExternalInputValue c));
        apply app_nil_r.
    + destruct (strict_eq (str s) (_lastExternalInputValue c)); reflexivity.
    + exact IH3.
Qed.

Lemma userInputs_unobserved_witness :
  onChangeLog
    (Spec.userInputs [Samples.ab; Samples.a]
       (writeValue (str Samples.a) Samples.scenario)) = []
  /\ _lastExternalInputValue
       (Spec.userInputs [Samples.ab; Samples.a]
          (writeValue (str Samples.a) Samples.scenario))
     = str Samples.a.
Proof.
  destruct (userInputs_unobserved
              (writeValue (str Samples.a) Samples.scenario)
              [Samples.ab; Samples.a] eq_refl)
    as (Hlog & Hlast & _).
  rewrite Hlog, Hlast. split; reflexivity.
Defined.

(** X9. Callbacks are called in the order of their registration, each once
    for an edit that is passed on: a callback registered last is called last,
    after those registered before it. *)
Theorem registerOnChange_order {V G : Type}
  (c : @MatSelectSearchComponent V G) (fn : nat) (s : string) :
  onChangeLog (userInput s (registerOnChange fn c))
  = onChangeLog c
    ++ (if strict_eq (str s) (_lastExternalInputValue c) then []
        else Spec.calls_of c s ++ [(fn, str s)]).
Proof.
  destruct (userInput_passes s (registerOnChange fn c)) as (Hlog & _).
  rewrite Hlog. unfold Spec.calls_of, registerOnChange. cbn.
  rewrite map_app. reflexivity.
Qed.

Lemma focus_keeps_select {V G : Type} (c : @MatSelectSearchComponent V G) :
  matSelect (_focus c) = matSelect c.
Proof.
  unfold _focus. destruct (panel (matSelect c)) as [ p | ] eqn:Hp;
    [ | reflexivity ].
  cbn. destruct (matSelect c) as [pn os gs km mu ct cw calls].
  cbn in *. subst pn. destruct p. reflexivity.
Qed.

(** What [setValue] does with a value that is not [undefined]. *)
Lemma setValue_frame {V G : Type} (v : Js.text)
  (c : @MatSelectSearchComponent V G) :
  v <> undefined ->
  _formControl_value (_formControl_setValue v c) = v
  /\ matSelect (_formControl_setValue v c) = matSelect c
  /\ onChangeLog (_formControl_setValue v c)
     = onChangeLog c
       ++ (if strict_eq v (_lastExternalInputValue c) then []
           else map (fun fn => (fn, v)) (onChangeFns c)).
Proof.
  intro Hv. unfold _formControl_setValue.
  set (c1 := set_formControl_value v c).
  destruct (pipes_emit v (onChangeFns c1) c1)
    as (_ & Hval & Hsel & _ & Hsame & Hother).
  change (_lastExternalInputValue c1) with (_lastExternalInputValue c)
    in Hsame, Hother.
  split; [ exact Hval | ]. split; [ exact Hsel | ].
  destruct (strict_eq v (_lastExternalInputValue c)) eqn:E.
  - destruct (Hsame eq_refl) as [Hlog _]. rewrite app_nil_r. exact Hlog.
  - destruct (Hother eq_refl Hv) as [Hlog _]. exact Hlog.
Qed.

(** X10. Resetting leaves the empty string as the search text and the select
    with its scroll offset as it was, also when it focuses the field; the
    callbacks are called with the empty string, even when the text was empty
    before, unless the empty string is the stored external value. *)
Theorem reset_notifies {V G : Type} (c : @MatSelectSearchComponent V G)
  (focus : bool) :
  _formControl_value (_reset focus c) = str EmptyString
  /\ matSelect (_reset focus c) = matSelect c
  /\ onChangeLog (_reset focus c)
     = onChangeLog c
       ++ (if strict_eq (str EmptyString) (_lastExternalInputValue c) then []
           else Spec.calls_of c EmptyString).
Proof.
  destruct (setValue_frame (str EmptyString) c) as (Hval & Hsel & Hlog);
    [ discriminate | ].
  unfold _reset.
  destruct focus.
  - rewrite focus_keeps_value, focus_keeps_select.
    split; [ exact Hval | ]. split; [ exact Hsel | ].
    unfold _focus.
    destruct (panel (matSelect (_formControl_setValue (str EmptyString) c)));
      exact Hlog.
  - split; [ exact Hval | ]. split; [ exact Hsel | exact Hlog ].
Qed.

(** An empty field that is cleared tells its callback so. *)
Example reset_of_empty_field :
  onChangeLog (_reset false Samples.field) = [(0%nat, str EmptyString)]
  /\ onChangeLog (_reset false (writeValue (str EmptyString) Samples.field))
     = [].
Proof. split; reflexivity. Qed.

(** X11. Opening the panel never changes the search text, the stored
    external value, the calls of the callbacks or the select with its scroll
    offset; the field is focused then unless [disableInitialFocus] is set or
    there is no panel. *)
Theorem opened_keeps_text {V G : Type} (c : @MatSelectSearchComponent V G)
  (inputs : Inputs) :
  let c' := openedChange_subscriber inputs true c in
  _formControl_value c' = _formControl_value c
  /\ _lastExternalInputValue c' = _lastExternalInputValue c
  /\ onChangeLog c' = onChangeLog c
  /\ matSelect c' = matSelect c
  /\ focused c'
     = (if disableInitialFocus inputs then focused c
        else match panel (matSelect c) with
             | Some _ => true
             | None => focused c
             end).
Proof.
  cbv zeta. unfold openedChange_subscriber.
  destruct (disableInitialFocus inputs); cbn [negb].
  - repeat split.
  - rewrite focus_keeps_value, focus_keeps_select.
    unfold _focus. destruct (panel (matSelect c)); repeat split.
Qed.

Lemma pipes_keep_focus {V G : Type} (v : Js.text) (fns : list nat)
  (c : @MatSelectSearchComponent V G) :
  focused (fold_left (onChange_pipe v) fns c) = focused c.
Proof.
  revert c. induction fns as [ | fn fns IH ]; intro c; [ reflexivity | ].
  simpl fold_left. rewrite IH. unfold onChange_pipe.
  destruct (strict_eq v (_lastExternalInputValue c)); reflexivity.
Qed.

(** X12. Closing the panel with [clearSearchInput] leaves the empty string as
    the search text, whatever was typed while it was open, and keeps the
    select and the focus as they were; without [clearSearchInput] it leaves
    the component as it is. *)
Theorem closed_clears_text {V G : Type} (c : @MatSelectSearchComponent V G)
  (inputs : Inputs) (edits : list string) :
  (clearSearchInput inputs = true ->
   let typed := Spec.userInputs edits (openedChange_subscriber inputs true c) in
   _formControl_value (openedChange_subscriber inputs false typed)
   = str EmptyString
   /\ matSelect (openedChange_subscriber inputs false typed) = matSelect typed
   /\ focused (openedChange_subscriber inputs false typed) = focused typed)
  /\ (clearSearchInput inputs = false ->
      openedChange_subscriber inputs false c = c).
Proof.
  split.
  - intro Hc. cbv zeta.
    set (typed := Spec.userInputs edits _).
    assert (E : openedChange_subscriber inputs false typed
                = _reset false typed)
      by (unfold openedChange_subscriber; rewrite Hc; reflexivity).
    rewrite E. unfold _reset.
    destruct (setValue_frame (str EmptyString) typed) as (Hval & Hsel & _);
      [ discriminate | ].
    split; [ exact Hval | ]. split; [ exact Hsel | ].
    unfold _formControl_setValue. rewrite pipes_keep_focus.
    reflexivity.
  - intro Hc. unfold openedChange_subscriber. rewrite Hc. reflexivity.
Qed.

Lemma closed_clears_text_witness :
  _formControl_value
    (openedChange_subscriber MoreSamples.inputs false
       (Spec.userInputs [Samples.a; Samples.ab]
          (openedChange_subscriber MoreSamples.inputs true Samples.field)))
  = str EmptyString
  /\ openedChange_subscriber MoreSamples.keepText false Samples.typed
     = Samples.typed.
Proof.
  split.
  - refine (proj1 (proj1 (closed_clears_text Samples.field MoreSamples.inputs
                            [Samples.a; Samples.ab]) _)).
    reflexivity.
  - refine (proj2 (closed_clears_text Samples.typed MoreSamples.keepText [])
              _).
    reflexivity.
Defined.

(** ** Multi-select restoration: what it keeps and when it writes back *)

Section RestorationMore.

Context {V : Type}.
Variable cmp : V -> V -> bool.
Variable optionValues : list V.

Let distinct : list V -> Prop :=
  ForallOrdPairs (fun x y : V => cmp x y = false).

Lemma some_equal_false (l : list V) (x : V) :
  some_equal cmp l x = false <-> (forall v, In v l -> cmp v x = false).
Proof.
  unfold some_equal. induction l as [ | a l IH ]; simpl.
  - split; [ intros _ v [] | reflexivity ].
  - rewrite orb_false_iff, IH. split.
    + intros [Ha Hl] v [ <- | Hv ]; [ exact Ha | apply Hl, Hv ].
    + intro H. split; [ apply H; left; reflexivity | ].
      intros v Hv. apply H. right. exact Hv.
Qed.

Lemma distinct_snoc (l : list V) (x : V) :
  distinct l -> (forall v, In v l -> cmp v x = false) -> distinct (l ++ [x]).
Proof.
  intros Hd Hx. induction Hd as [ | a l Ha Hl IH ]; simpl.
  - constructor; [ constructor | constructor ].
  - constructor.
    + apply Forall_app. split; [ exact Ha | ].
      constructor; [ apply Hx; left; reflexivity | constructor ].
    + apply IH. intros v Hv. apply Hx. right. exact Hv.
Qed.

(** Restoring keeps a selection without two equal values so. *)
Lemma restored_distinct (previous current : list V) :
  distinct current ->
  distinct (current ++ Spec.restored cmp optionValues current previous).
Proof.
  revert current. induction previous as [ | p ps IH ]; intros current Hd.
  - simpl. rewrite app_nil_r. exact Hd.
  - simpl. destruct (Spec.missing cmp current optionValues p) eqn:E.
    + replace (current ++ p :: Spec.restored cmp optionValues (current ++ [p]) ps)
        with ((current ++ [p])
              ++ Spec.restored cmp optionValues (current ++ [p]) ps)
        by (rewrite <- app_assoc; reflexivity).
      apply IH. apply distinct_snoc; [ exact Hd | ].
      apply some_equal_false.
      unfold Spec.missing in E. apply andb_true_iff in E.
      destruct E as [E _]. apply negb_true_iff in E. exact E.
    + apply IH. exact Hd.
Qed.

(** Previous values that are all selected (a value equals itself) leave
    nothing to restore. *)
Lemma restored_of_selected (previous current : list V) :
  (forall x, In x previous -> cmp x x = true) ->
  incl previous current ->
  Spec.restored cmp optionValues current previous = [].
Proof.
  intros Hrefl Hincl. induction previous as [ | p ps IH ]; [ reflexivity | ].
  simpl.
  assert (Hp : some_equal cmp current p = true).
  { unfold some_equal. apply existsb_exists. exists p.
    split; [ apply Hincl; left; reflexivity | apply Hrefl; left; reflexivity ]. }
  unfold Spec.missing. rewrite Hp. cbn [negb andb].
  apply IH.
  - intros x Hx. apply Hrefl. right. exact Hx.
  - intros x Hx. apply Hincl. right. exact Hx.
Qed.

(** Something is restored exactly when a previous value is missing. *)
Lemma restored_nonempty (previous current : list V) :
  Spec.is_nil (Spec.restored cmp optionValues current previous) = false ->
  exists x, In x previous
            /\ Spec.missing cmp current optionValues x = true.
Proof.
  intro H.
  destruct (Spec.restored cmp optionValues current previous) as [ | x R ] eqn:E;
    [ discriminate | ].
  exists x. apply (restored_sound cmp optionValues previous current).
  rewrite E. left. reflexivity.
Qed.

End RestorationMore.

(** The subscriber outside the restoring case only stores the selection. *)
Lemma selectionChanged_plain {V G : Type}
  (c : @MatSelectSearchComponent V G) (current : Selection) :
  multiple (matSelect c) = false
  \/ alwaysRestoreSelectedOptionsMulti c = false
  \/ truthy (_formControl_value c) = false
  \/ isArray (previousSelectedValues c) = false ->
  selectionChanged current c = set_previousSelectedValues current c.
Proof.
  intros [ H | [ H | [ H | H ] ] ].
  - unfold selectionChanged. rewrite H. reflexivity.
  - unfold selectionChanged. rewrite H.
    destruct (negb (multiple (matSelect c))); reflexivity.
  - unfold selectionChanged. rewrite H.
    destruct (negb (multiple (matSelect c))); [ reflexivity | ].
    destruct (negb (alwaysRestoreSelectedOptionsMulti c)); reflexivity.
  - apply selectionChanged_no_previous. exact H.
Qed.

(** The subscriber, case by case. *)
Lemma selectionChanged_cases {V G : Type}
  (c : @MatSelectSearchComponent V G) (current : Selection) :
  selectionChanged current c = set_previousSelectedValues current c
  \/ exists previous : list V,
       multiple (matSelect c) = true
       /\ alwaysRestoreSelectedOptionsMulti c = true
       /\ truthy (_formControl_value c) = true
       /\ previousSelectedValues c = Arr previous.
Proof.
  destruct (multiple (matSelect c)) eqn:Hm;
    [ | left; apply selectionChanged_plain; auto ].
  destruct (alwaysRestoreSelectedOptionsMulti c) eqn:Hf;
    [ | left; apply selectionChanged_plain; auto ].
  destruct (truthy (_formControl_value c)) eqn:Ht;
    [ | left; apply selectionChanged_plain; auto ].
  destruct (previousSelectedValues c) as [ | v | previous ] eqn:Hp.
  - left. apply selectionChanged_plain. rewrite Hp. auto.
  - left. apply selectionChanged_plain. rewrite Hp. auto.
  - right. exists previous. auto.
Qed.

(** X13. The restoration adds no value twice: when no two values of the
    incoming selection are equal by [compareWith], no two values of the
    selection the subscriber stores (and writes back) are. *)
Theorem restoration_keeps_distinct {V G : Type}
  (c : @MatSelectSearchComponent V G) (current : Selection) :
  ForallOrdPairs (fun x y => compareWith (matSelect c) x y = false)
    (Spec.values current) ->
  ForallOrdPairs (fun x y => compareWith (matSelect c) x y = false)
    (Spec.values (previousSelectedValues (selectionChanged current c))).
Proof.
  intro Hd.
  destruct (selectionChanged_cases c current)
    as [ E | (previous & Hm & Hf & Ht & Hp) ].
  - rewrite E. exact Hd.
  - rewrite (selectionChanged_filtering c current previous Hm Hf Ht Hp).
    cbv zeta.
    match goal with
    | |- context [Spec.is_nil ?r] => set (R := r)
    end.
    assert (Hprev : forall c0 : @MatSelectSearchComponent V G,
              previousSelectedValues
                (if Spec.is_nil R
                 then set_previousSelectedValues
                        (Arr (Spec.values current ++ R)) c0
                 else _onChange (Arr (Spec.values current ++ R))
                        (set_previousSelectedValues
                           (Arr (Spec.values current ++ R)) c0))
              = Arr (Spec.values current ++ R))
      by (intro c0; destruct (Spec.is_nil R); reflexivity).
    rewrite Hprev. cbn [Spec.values].
    apply restored_distinct. exact Hd.
Qed.

Lemma restoration_keeps_distinct_witness :
  ForallOrdPairs (fun x y => String.eqb x y = false)
    (Spec.values
       (previousSelectedValues
          (selectionChanged Samples.sel_a Samples.twice))).
Proof.
  apply (restoration_keeps_distinct Samples.twice Samples.sel_a).
  repeat constructor.
Defined.

(** X14. The subscriber calls [matSelect._onChange] at most once for a
    selection change, and only in multi-select mode with the restoration flag
    and a non-empty filter text, when a previous value is neither in the
    incoming selection nor among the values of the rendered options; the
    selection it passes is the one it stores. *)
Theorem writes_back_only_when_missing {V G : Type}
  (c : @MatSelectSearchComponent V G) (current : Selection) :
  _onChange_calls (matSelect (selectionChanged current c))
  = _onChange_calls (matSelect c)
  \/ (multiple (matSelect c) = true
      /\ alwaysRestoreSelectedOptionsMulti c = true
      /\ truthy (_formControl_value c) = true
      /\ (exists x : V,
            In x (Spec.values (previousSelectedValues c))
            /\ Spec.missing (compareWith (matSelect c)) (Spec.values current)
                 (map value (options (matSelect c))) x = true)
      /\ _onChange_calls (matSelect (selectionChanged current c))
         = _onChange_calls (matSelect c)
           ++ [previousSelectedValues (selectionChanged current c)]).
Proof.
  destruct (selectionChanged_cases c current)
    as [ E | (previous & Hm & Hf & Ht & Hp) ].
  - left. rewrite E. reflexivity.
  - rewrite (selectionChanged_filtering c current previous Hm Hf Ht Hp).
    cbv zeta.
    match goal with
    | |- context [Spec.is_nil ?r] => set (R := r)
    end.
    destruct (Spec.is_nil R) eqn:En.
    + left. destruct (isArray current); reflexivity.
    + right. split; [ exact Hm | ]. split; [ exact Hf | ].
      split; [ exact Ht | ].
      split.
      * rewrite Hp. cbn [Spec.values].
        apply restored_nonempty. exact En.
      * destruct (isArray current); reflexivity.
Qed.

(** X15. A write-back does not loop: when [compareWith] takes every value
    for equal to itself and the select emits the selection the subscriber
    stored, nothing more is restored or written back and the stored selection
    stays. *)
Theorem reemission_settles {V G : Type}
  (c : @MatSelectSearchComponent V G) (l : list V) :
  (forall x : V, compareWith (matSelect c) x x = true) ->
  previousSelectedValues c = Arr l ->
  _onChange_calls (matSelect (selectionChanged (Arr l) c))
  = _onChange_calls (matSelect c)
  /\ previousSelectedValues (selectionChanged (Arr l) c) = Arr l.
Proof.
  intros Hrefl Hprev.
  destruct (selectionChanged_cases c (Arr l))
    as [ E | (previous & Hm & Hf & Ht & Hp) ].
  - rewrite E. split; reflexivity.
  - rewrite (selectionChanged_filtering c (Arr l) previous Hm Hf Ht Hp).
    assert (previous = l) by congruence. subst previous.
    cbv zeta. cbn [Spec.values isArray].
    rewrite restored_of_selected;
      [ | intros x _; apply Hrefl | apply incl_refl ].
    cbn [Spec.is_nil]. rewrite app_nil_r. split; reflexivity.
Qed.

(** The selection written back for previous {a, b, c}, current {a} is
    emitted by the select: nothing more is written back. *)
Lemma reemission_settles_witness :
  let c1 := selectionChanged Samples.sel_a Samples.filtering in
  _onChange_calls (matSelect (selectionChanged Samples.sel_abc c1))
  = _onChange_calls (matSelect c1)
  /\ previousSelectedValues (selectionChanged Samples.sel_abc c1)
     = Samples.sel_abc.
Proof.
  refine (reemission_settles
            (selectionChanged Samples.sel_a Samples.filtering)
            (Spec.values Samples.sel_abc) _ _).
  - intro x. apply String.eqb_refl.
  - reflexivity.
Defined.

(** One emission of an array by a control the component subscribed to: the
    control is still there, the subscription too, and the stored selection is
    the value the control holds (the array that was emitted, with the values
    pushed into it). *)
Lemma emission_tracks_control {V G : Type}
  (c : @MatSelectSearchComponent V G) (w : Selection) (l : list V) :
  ngControl (matSelect c) = Some w ->
  valueChangesSubscribed c = true ->
  let c' := ngControl_valueChanges (Arr l) c in
  ngControl (matSelect c') = Some (previousSelectedValues c')
  /\ valueChangesSubscribed c' = true.
Proof.
  intros Hc Hs. cbv zeta. unfold ngControl_valueChanges. rewrite Hc.
  set (c1 := set_matSelect (set_ngControl (Some (Arr l)) (matSelect c)) c).
  change (valueChangesSubscribed c1) with (valueChangesSubscribed c).
  rewrite Hs.
  destruct (selectionChanged_cases c1 (Arr l))
    as [ E | (previous & Hm & Hf & Ht & Hp) ].
  - rewrite E. split; [ reflexivity | exact Hs ].
  - rewrite (selectionChanged_filtering c1 (Arr l) previous Hm Hf Ht Hp).
    cbv zeta. cbn [isArray].
    match goal with
    | |- context [Spec.is_nil ?r] => destruct (Spec.is_nil r)
    end; (split; [ reflexivity | exact Hs ]).
Qed.

(** X16. The stored previous selection follows the control: after
    [initMultipleHandling] on a select with a control, and after every array
    the control emits then, [previousSelectedValues] is the value the control
    holds, values restored into the emitted array included. *)
Theorem previous_tracks_control {V G : Type}
  (c : @MatSelectSearchComponent V G) (w : Selection)
  (emissions : list (list V)) :
  ngControl (matSelect c) = Some w ->
  exists c0 : @MatSelectSearchComponent V G,
    initMultipleHandling c = Normal c0
    /\ previousSelectedValues c0 = w
    /\ let c' := Spec.selectionChanges (map Arr emissions) c0 in
       ngControl (matSelect c') = Some (previousSelectedValues c')
       /\ valueChangesSubscribed c' = true.
Proof.
  intro Hc.
  exists (set_valueChangesSubscribed true (set_previousSelectedValues w c)).
  split; [ unfold initMultipleHandling; rewrite Hc; reflexivity | ].
  split; [ reflexivity | ].
  cbv zeta.
  set (c0 := set_valueChangesSubscribed true (set_previousSelectedValues w c)).
  assert (Inv : ngControl (matSelect c0) = Some (previousSelectedValues c0)
                /\ valueChangesSubscribed c0 = true)
    by (split; [ exact Hc | reflexivity ]).
  clearbody c0. revert c0 Inv.
  induction emissions as [ | l ls IH ]; intros c0 Inv; [ exact Inv | ].
  unfold Spec.selectionChanges. simpl map. simpl fold_left.
  apply IH.
  destruct Inv as [Hc0 Hs0].
  exact (emission_tracks_control c0 _ l Hc0 Hs0).
Qed.

Lemma previous_tracks_control_witness :
  exists c0 : @MatSelectSearchComponent string unit,
    initMultipleHandling
      (set_valueChangesSubscribed false MoreSamples.reemitted) = Normal c0
    /\ ngControl
         (matSelect
            (Spec.selectionChanges [Samples.sel_a; Samples.sel_none] c0))
       = Some
           (previousSelectedValues
              (Spec.selectionChanges [Samples.sel_a; Samples.sel_none] c0)).
Proof.
  destruct (previous_tracks_control
              (set_valueChangesSubscribed false MoreSamples.reemitted)
              Samples.sel_ab
              [Spec.values Samples.sel_a; Spec.values Samples.sel_none]
              eq_refl)
    as (c0 & Hinit & _ & Hctl & _).
  exists c0. split; [ exact Hinit | exact Hctl ].
Defined.

(** What the run of the witness stores: b, which is not rendered, is
    restored into {a}, and then into the empty selection; a, which is
    rendered, stays deselected. *)
Example previous_tracks_control_run :
  previousSelectedValues
    (Spec.selectionChanges [Samples.sel_a; Samples.sel_none]
       MoreSamples.reemitted)
  = MoreSamples.sel_b
  /\ _onChange_calls
       (matSelect
          (Spec.selectionChanges [Samples.sel_a] MoreSamples.reemitted))
     = [Samples.sel_ab].
Proof. split; reflexivity. Qed.

(** ** What the screen reader is told *)

(** X17. A rendered option that is not the search option is announced at a
    position between 1 and the announced length: the first such option at
    position 1, the last at the announced length. *)
Theorem aria_index_in_range {V G : Type} (c : @MatSelectSearchComponent V G)
  (_options : list OptionView) (optionIndex : Z) :
  getOptionsLengthOffset c <= optionIndex < Z.of_nat (List.length _options) ->
  1 <= getAriaIndex c optionIndex <= getAriaLength c _options
  /\ getAriaIndex c (getOptionsLengthOffset c) = 1
  /\ getAriaIndex c (Z.of_nat (List.length _options) - 1)
     = getAriaLength c _options.
Proof.
  unfold getAriaIndex, getAriaLength, getOptionsLengthOffset.
  destruct (matOption c); cbn; lia.
Qed.

Lemma aria_index_in_range_witness :
  1 <= getAriaIndex Samples.typed 2 <= getAriaLength Samples.typed
                                          MoreSamples.banks
  /\ getAriaIndex Samples.typed 1 = 1
  /\ getAriaIndex Samples.typed 3
     = getAriaLength Samples.typed MoreSamples.banks.
Proof.
  apply (aria_index_in_range Samples.typed MoreSamples.banks 2).
  cbn. lia.
Defined.

Lemma findIndex_from_none {A : Type} (f : A -> bool) (l : list A) (i : Z) :
  (forall x, In x l -> f x = false) -> findIndex_from f l i = -1.
Proof.
  revert i. induction l as [ | a l IH ]; intros i H; [ reflexivity | ].
  simpl. rewrite (H a) by (left; reflexivity).
  apply IH. intros x Hx. apply H. right. exact Hx.
Qed.

Lemma findIndex_from_first {A : Type} (f : A -> bool)
  (before after : list A) (item : A) (i : Z) :
  (forall x, In x before -> f x = false) ->
  f item = true ->
  findIndex_from f (before ++ item :: after) i
  = i + Z.of_nat (List.length before).
Proof.
  revert i. induction before as [ | a l IH ]; intros i Hb Hi.
  - simpl. rewrite Hi. lia.
  - simpl app. simpl findIndex_from.
    rewrite (Hb a) by (left; reflexivity).
    rewrite IH; [ simpl List.length; lia | | exact Hi ].
    intros x Hx. apply Hb. right. exact Hx.
Qed.

(** X18. A key up announces at most once: nothing for a key that is not an
    arrow up or down, nothing when no option has the id of the active
    descendant, and for an arrow key the first option with that id, by its
    label, its position and the length. *)
Theorem handleKeyup_announces {V G : Type}
  (c : @MatSelectSearchComponent V G) (inputs : Inputs)
  (ariaActiveDescendantId : option string) (_options : list OptionView)
  (event : KeyboardEvent) (announced : list string) :
  let after := _handleKeyup inputs ariaActiveDescendantId _options event c
                 announced in
  (keyCode event <> UP_ARROW -> keyCode event <> DOWN_ARROW ->
   after = announced)
  /\ ((forall item, In item _options ->
         ariaActiveDescendantId <> Some (id item)) ->
      after = announced)
  /\ (forall (before rest : list OptionView) (item : OptionView),
        keyCode event = UP_ARROW \/ keyCode event = DOWN_ARROW ->
        _options = before ++ item :: rest ->
        ariaActiveDescendantId = Some (id item) ->
        (forall b, In b before -> id b <> id item) ->
        after
        = announced
          ++ [(viewValue item ++ " "
               ++ Number_toString
                    (getAriaIndex c (Z.of_nat (List.length before)))
               ++ indexAndLengthScreenReaderText inputs
               ++ Number_toString (getAriaLength c _options))%string]).
Proof.
  cbv zeta. unfold _handleKeyup.
  split; [ | split ].
  - intros Hu Hd.
    apply Z.eqb_neq in Hu. apply Z.eqb_neq in Hd. rewrite Hu, Hd.
    reflexivity.
  - intro Hnone. unfold findIndex.
    rewrite findIndex_from_none.
    + destruct ((keyCode event =? UP_ARROW) || (keyCode event =? DOWN_ARROW));
        reflexivity.
    + intros x Hx. destruct ariaActiveDescendantId as [ a | ];
        [ | reflexivity ].
      apply String.eqb_neq. intro E. apply (Hnone x Hx). rewrite E.
      reflexivity.
  - intros before rest item Hk Ho Ha Hb.
    replace ((keyCode event =? UP_ARROW) || (keyCode event =? DOWN_ARROW))
      with true
      by (symmetry; apply orb_true_iff;
          destruct Hk as [Hk | Hk]; [ left | right ]; apply Z.eqb_eq, Hk).
    unfold findIndex. rewrite Ho, Ha.
    rewrite findIndex_from_first;
      [ | intros x Hx; apply String.eqb_neq, Hb, Hx | apply String.eqb_refl ].
    replace (negb (0 + Z.of_nat (List.length before) =? -1)) with true
      by (symmetry; apply negb_true_iff, Z.eqb_neq; lia).
    replace (Z.to_nat (0 + Z.of_nat (List.length before)))
      with (List.length before + 0)%nat by lia.
    rewrite nth_error_app2 by lia.
    replace (List.length before + 0 - List.length before)%nat with 0%nat
      by lia.
    cbn [nth_error]. reflexivity.
Qed.

Lemma handleKeyup_announces_witness :
  _handleKeyup MoreSamples.inputs (Some MoreSamples.opt2) MoreSamples.banks
    MoreSamples.letterA Samples.typed []
  = []
  /\ _handleKeyup MoreSamples.inputs None MoreSamples.banks
       MoreSamples.arrowDown Samples.typed []
     = [].
Proof.
  split.
  - refine (proj1 (handleKeyup_announces Samples.typed MoreSamples.inputs
                     (Some MoreSamples.opt2) MoreSamples.banks
                     MoreSamples.letterA []) _ _); discriminate.
  - refine (proj1 (proj2 (handleKeyup_announces Samples.typed
                            MoreSamples.inputs None MoreSamples.banks
                            MoreSamples.arrowDown [])) _).
    intros item _. discriminate.
Defined.

(** Inside a mat-option, the arrow down to the second bank. *)
Example handleKeyup_bank :
  _handleKeyup MoreSamples.inputs (Some MoreSamples.opt2) MoreSamples.banks
    MoreSamples.arrowDown Samples.typed []
  = ["Bank B 2 of 3"%string].
Proof. reflexivity. Qed.

(** ** The panel class *)

Lemma assign_true_classes (n k : string) (o : list (string * bool)) :
  In k (map fst (filter snd (assign_true n o)))
  <-> k = n \/ In k (map fst (filter snd o)).
Proof.
  induction o as [ | [k' b] o IH ].
  - simpl. split; [ intros [ <- | [] ]; left; reflexivity | ].
    intros [ -> | [] ]. left. reflexivity.
  - simpl assign_true. destruct (String.eqb k' n) eqn:E.
    + apply String.eqb_eq in E. subst k'. simpl.
      destruct b; simpl; split.
      * intros [ <- | H ]; [ left; reflexivity | right; right; exact H ].
      * intros [ -> | [ <- | H ] ];
          [ left; reflexivity | left; reflexivity | right; exact H ].
      * intros [ <- | H ]; [ left; reflexivity | right; exact H ].
      * intros [ -> | H ]; [ left; reflexivity | right; exact H ].
    + simpl. destruct b; simpl; rewrite IH; tauto.
Qed.

(** X19. Whatever the select had as its panel class (nothing, a string, an
    array or an object), the first block of [ngOnInit] adds the class
    mat-select-search-panel, keeps every class that was listed and lists no
    other. *)
Theorem panelClass_added (panelClass : PanelClass) (k : string) :
  In panelClass_name (classNames (ngOnInit_panelClass panelClass))
  /\ (In k (classNames (ngOnInit_panelClass panelClass))
      <-> k = panelClass_name \/ In k (classNames panelClass)).
Proof.
  destruct panelClass as [ | s | l | o ]; simpl.
  - split; [ left; reflexivity | ].
    split; [ intros [ <- | [] ]; left; reflexivity | ].
    intros [ -> | [] ]. left. reflexivity.
  - destruct (String.eqb s "") eqn:E; simpl.
    + split; [ left; reflexivity | ].
      split; [ intros [ <- | [] ]; left; reflexivity | ].
      intros [ -> | [] ]. left. reflexivity.
    + split; [ right; left; reflexivity | ].
      split.
      * intros [ <- | [ <- | [] ] ];
          [ right; left; reflexivity | left; reflexivity ].
      * intros [ -> | [ <- | [] ] ];
          [ right; left; reflexivity | left; reflexivity ].
  - split; [ apply in_or_app; right; left; reflexivity | ].
    rewrite in_app_iff. simpl. split.
    + intros [ H | [ <- | [] ] ]; [ right; exact H | left; reflexivity ].
    + intros [ -> | H ]; [ right; left; reflexivity | left; exact H ].
  - split; [ apply assign_true_classes; left; reflexivity | ].
    apply assign_true_classes.
Qed.

(** A string becomes an array of the string and the class. *)
Example panelClass_of_string :
  classNames (ngOnInit_panelClass MoreSamples.customClass)
  = classNames MoreSamples.customClass ++ [panelClass_name].
Proof. reflexivity. Qed.
